(** * nats server generate: the scaffolding command and its pipeline

    A shallow embedding of [cli/server_generate.go] (the [generateAction]
    method of [serverGenerateCmd]) together with the collaborators it
    calls, and the properties of the generate pipeline proved over it.

    The command talks to the outside through seven calls: [iu.FileExists],
    [url.Parse], [scaffold.FromUrl], [scaffold.FromFile],
    [au.GetAuthBuilder], [auth.Operators().List()] and [Bundle.Run].
    They are an interface here ([Collaborators]); [generateAction] is
    written once against that interface, in a small state-and-error monad
    that threads the outside world and records every call made. *)

From Stdlib Require Import Ascii.
From stdpp Require Import base strings gmap list sorting pretty.

Local Open Scope string_scope.
Local Open Scope list_scope.

(** ** Go strings *)

Module strings.

(** [strings.HasPrefix]. *)
Fixpoint HasPrefix (s prefix : string) : bool :=
  match prefix, s with
  | EmptyString, _ => true
  | String _ _, EmptyString => false
  | String c prefix', String d s' =>
      if Ascii.eqb c d then HasPrefix s' prefix' else false
  end.

(** [strings.Contains]: [substr] occurs somewhere within [s]. *)
Fixpoint Contains (s substr : string) : bool :=
  HasPrefix s substr ||
  match s with
  | EmptyString => false
  | String _ s' => Contains s' substr
  end.

End strings.

(** ** Data *)

(** [url.URL], the fields a caller can observe after [url.Parse]. *)
Record URL : Type := mkURL {
  Scheme : string;
  Host : string;
  Path : string
}.

(** Values of Go's [any] that occur in a substitution environment. *)
Inductive any : Type :=
| VString (s : string)
| VNumber (n : Z)
| VBool (b : bool).

(** [map[string]any]. *)
Abbreviation Environment := (gmap string any).

(** [Bundle.Requires]. *)
Record Requires_t : Type := mkRequires {
  Operator : bool
}.

(** One piece of a template body. *)
Inductive chunk : Type :=
| Text (s : string)
| Placeholder (name : string).

(** Modelled from the spec: the declaration of a bundle variable is not
    under src/; a variable has a name and an optional default. *)
Record variable : Type := mkVariable {
  var_name : string;
  var_default : option any
}.

(** Modelled from the spec: the declaration of a bundle entry is not under
    src/; an entry has a relative target path (its segments), a template
    body and an optional boolean condition over the environment. *)
Record entry : Type := mkEntry {
  entry_path : list string;
  entry_body : list chunk;
  entry_cond : option (Environment → bool)
}.

(** Modelled from the spec: the declaration of [scaffold.Bundle] is not
    under src/. The source reads [b.Requires.Operator]; the variables, the
    entries and the informational metadata follow the spec's data model. *)
Record Bundle : Type := mkBundle {
  Requires : Requires_t;
  Variables : list variable;
  Entries : list entry;
  Metadata : string
}.

(** The receiver of [generateAction]. *)
Record serverGenerateCmd : Type := mkCmd {
  source : string;
  target : string
}.

(** The global options read through [opts()]. *)
Record Options : Type := mkOptions {
  Trace : bool
}.

(** ** Errors

    A Go [error] that reaches the caller of [generateAction] was either
    built in [generateAction] itself with [fmt.Errorf], or handed back by a
    collaborator and returned as it is. [fmt.Errorf] allocates a fresh
    value, so the two never coincide; the constructors keep them apart.
    An [Errorf] keeps the format and its arguments as the call gives them. *)
Inductive error : Type :=
| Errorf (format : string) (args : list string)
| Returned (msg : string).

Inductive result (A : Type) : Type :=
| Ok (a : A)
| Err (e : error).
Arguments Ok {A} a.
Arguments Err {A} e.

(** What a collaborator returns: Go's [(value, err)] pair, [err] being the
    collaborator's own error. *)
Abbreviation reply A := (string + A)%type.

(** ** The collaborators *)

Class Collaborators (W Auth : Type) : Type := {
  (** [iu.FileExists]: an observation of the world. *)
  FileExists : string → W → bool;
  (** [url.Parse]: a function of its argument alone. *)
  url_Parse : string → reply URL;
  (** [scaffold.FromUrl]: one blocking fetch, then parsing. *)
  scaffold_FromUrl : URL → W → reply Bundle * W;
  (** [scaffold.FromFile]: a read of the file, then parsing. *)
  scaffold_FromFile : string → W → reply Bundle * W;
  (** [au.GetAuthBuilder]: the handle to the authority store. *)
  GetAuthBuilder : W → reply Auth * W;
  (** [auth.Operators().List()]. *)
  Operators_List : Auth → W → list string * W;
  (** [b.Run(target, env, trace)]; [None] is Go's nil error. *)
  Bundle_Run : Bundle → string → Environment → bool → W → option string * W
}.

(** ** Calls and the record of a run *)

Inductive call : Type :=
| CallFileExists (path : string)
| CallUrlParse (rawURL : string)
| CallFromUrl (uri : URL)
| CallFromFile (path : string)
| CallGetAuthBuilder
| CallOperatorsList
| CallRun (b : Bundle) (target : string) (env : Environment) (trace : bool).

(** A call that was made, and the error it came back with, if any. *)
Record event : Type := mkEvent {
  ev_call : call;
  ev_err : option string
}.

(** The stage of the pipeline a call belongs to. *)
Inductive stage : Type := Precheck | Resolve | Validate | Render.

Definition stage_of (c : call) : stage :=
  match c with
  | CallFileExists _ => Precheck
  | CallUrlParse _ | CallFromUrl _ | CallFromFile _ => Resolve
  | CallGetAuthBuilder | CallOperatorsList => Validate
  | CallRun _ _ _ _ => Render
  end.

Definition is_resolve (ev : event) : bool :=
  match stage_of (ev_call ev) with Resolve => true | _ => false end.

Definition is_validate (ev : event) : bool :=
  match stage_of (ev_call ev) with Validate => true | _ => false end.

Definition is_render (ev : event) : bool :=
  match stage_of (ev_call ev) with Render => true | _ => false end.

Definition reply_err {A : Type} (r : reply A) : option string :=
  match r with inl e => Some e | inr _ => None end.

(** The place of a call in the text of [generateAction]; the two fetches
    are the two arms of one switch. *)
Definition call_rank (c : call) : nat :=
  match c with
  | CallFileExists _ => 0
  | CallUrlParse _ => 1
  | CallFromUrl _ | CallFromFile _ => 2
  | CallGetAuthBuilder => 3
  | CallOperatorsList => 4
  | CallRun _ _ _ _ => 5
  end.

Definition succeeded (c : call) : event := {| ev_call := c; ev_err := None |}.

Definition failed (c : call) (e : string) : event :=
  {| ev_call := c; ev_err := Some e |}.

(** The lookup of the target, which opens every run. *)
Definition precheck_event (c : serverGenerateCmd) : event :=
  succeeded (CallFileExists (target c)).

(** ** The monad of the command *)

(** The world outside, and the calls made so far, oldest first. *)
Record state (W : Type) : Type := mkState {
  world : W;
  calls : list event
}.
Arguments mkState {W} world calls.
Arguments world {W} s.
Arguments calls {W} s.

Section Command.

Context {W : Type}.

Definition M (A : Type) : Type := state W → result A * state W.

#[global] Instance M_ret : MRet M := λ A a st, (Ok a, st).

(** An error ends the run: what follows is skipped, the state stays. *)
#[global] Instance M_bind : MBind M := λ A B k m st,
  match m st with
  | (Ok a, st') => k a st'
  | (Err e, st') => (Err e, st')
  end.

(** [return fmt.Errorf(...)] and [return err]. *)
Definition throw {A : Type} (e : error) : M A := λ st, (Err e, st).

Definition record (c : call) (err : option string) (w : W) (st : state W)
    : state W :=
  {| world := w; calls := calls st ++ [ {| ev_call := c; ev_err := err |} ] |}.

(** A call that only looks at the world. *)
Definition observe {A : Type} (c : call) (f : W → A) : M A :=
  λ st, (Ok (f (world st)), record c None (world st) st).

(** A call that cannot fail. *)
Definition perform {A : Type} (c : call) (f : W → A * W) : M A :=
  λ st, let '(a, w') := f (world st) in (Ok a, record c None w' st).

(** A call that returns Go's [(value, err)]; the pair is handed to the
    caller, who decides what to do with [err]. *)
Definition request {A : Type} (c : call) (f : W → reply A * W) : M (reply A) :=
  λ st, let '(r, w') := f (world st) in (Ok r, record c (reply_err r) w' st).

(** A call that returns only an [error]. *)
Definition invoke (c : call) (f : W → option string * W) : M (option string) :=
  λ st, let '(r, w') := f (world st) in (Ok r, record c r w' st).

(** [if err != nil { return err }] on a [(value, err)] pair. *)
Definition check {A : Type} (r : reply A) : M A :=
  match r with
  | inl e => throw (Returned e)
  | inr a => mret a
  end.

End Command.

(** ** [generateAction] *)

Section Generate.

Context {W Auth : Type} {K : Collaborators W Auth}.

(** Lines 47 to 64: the switch on the source and the error check after it. *)
Definition resolve (c : serverGenerateCmd) : M Bundle :=
  r ← (if strings.Contains (source c) "://" then
         p ← request (CallUrlParse (source c)) (λ w, (url_Parse (source c), w));
         uri ← check p;
         if decide (Scheme uri = "") then
           throw (Errorf "invalid URL %q" [source c])
         else
           request (CallFromUrl uri) (scaffold_FromUrl uri)
       else
         request (CallFromFile (source c)) (scaffold_FromFile (source c)));
  check r.

(** Lines 66 to 74. *)
Definition validate (b : Bundle) : M unit :=
  if Operator (Requires b) then
    a ← request CallGetAuthBuilder GetAuthBuilder;
    auth ← check a;
    ops ← perform CallOperatorsList (Operators_List auth);
    if decide (length ops = 0) then
      throw (Errorf "no operator found" [])
    else mret tt
  else mret tt.

(** Lines 76 to 79. *)
Definition build_env (c : serverGenerateCmd) : Environment :=
  <["_source" := VString (source c)]>
    (<["_target" := VString (target c)]> ∅).

(** Lines 81 to 86. *)
Definition render (opts : Options) (c : serverGenerateCmd) (b : Bundle)
    (env : Environment) : M unit :=
  err ← invoke (CallRun b (target c) env (Trace opts))
          (Bundle_Run b (target c) env (Trace opts));
  match err with
  | Some e => throw (Returned e)
  | None => mret tt
  end.

Definition generateAction (opts : Options) (c : serverGenerateCmd) : M unit :=
  exists_ ← observe (CallFileExists (target c)) (FileExists (target c));
  if (exists_ : bool) then
    throw (Errorf "target directory %s already exist" [target c])
  else
    b ← resolve c;
    validate b;;
    let env := build_env c in
    render opts c b env.

(** A run from a world in which nothing has been called yet. *)
Definition run (opts : Options) (c : serverGenerateCmd) (w : W)
    : result unit * state W :=
  generateAction opts c {| world := w; calls := [] |}.

(** The state once the target has been looked up and found absent. *)
Definition checked (c : serverGenerateCmd) (w : W) : state W :=
  {| world := w; calls := [precheck_event c] |}.

(** The resolver and the authority store leave the world as it is: the
    resolver reads, and the store is read-only. *)
Definition read_only : Prop :=
  (∀ uri w, (scaffold_FromUrl uri w).2 = w) ∧
  (∀ p w, (scaffold_FromFile p w).2 = w) ∧
  (∀ w, (GetAuthBuilder w).2 = w) ∧
  (∀ auth w, (Operators_List auth w).2 = w).

End Generate.

(** Two implementations that differ at most in the authority store. *)
Definition same_outside_store {W A1 A2 : Type}
    (K1 : Collaborators W A1) (K2 : Collaborators W A2) : Prop :=
  (∀ p w, @FileExists _ _ K1 p w = @FileExists _ _ K2 p w) ∧
  (∀ raw, @url_Parse _ _ K1 raw = @url_Parse _ _ K2 raw) ∧
  (∀ uri w, @scaffold_FromUrl _ _ K1 uri w = @scaffold_FromUrl _ _ K2 uri w) ∧
  (∀ p w, @scaffold_FromFile _ _ K1 p w = @scaffold_FromFile _ _ K2 p w) ∧
  (∀ b t env tr w, @Bundle_Run _ _ K1 b t env tr w = @Bundle_Run _ _ K2 b t env tr w).

(** ** The renderer of a bundle

    [Bundle.Run] lives in [internal/scaffold], which is not under src/.
    The definitions of this module follow section 4.4 of the
    specification. *)

Module scaffold.

(** Modelled from the spec: a filesystem entry is a directory or a file
    with its bytes; the filesystem maps a path to the entry found there. *)
Inductive node : Type :=
| Dir
| File (content : string).

Abbreviation filesystem := (gmap string node).

(** Modelled from the spec: the two failures section 4.4 names for the
    renderer (the filesystem type and the renderer are not under src/). *)
Inductive failure : Type :=
| TargetExistsError (target : string)
| RenderError (entry : list string) (key : string).

(** The text of a relative path below a directory: [/a/b] for [a; b]. *)
Fixpoint under (segs : list string) : string :=
  match segs with
  | [] => ""
  | s :: segs' => "/" +:+ s +:+ under segs'
  end.

(** Modelled from the spec: the resolved path of an entry, the target
    followed by the entry's relative path. *)
Definition resolved (target : string) (segs : list string) : string :=
  target +:+ under segs.

(** The proper, non-empty prefixes of a relative path, shortest first:
    the directories an entry's file lies in, below the target. *)
Definition parents (segs : list string) : list (list string) :=
  (λ n, take n segs) <$> seq 1 (length segs - 1).

(** The text a value is substituted as. *)
Definition show (v : any) : string :=
  match v with
  | VString s => s
  | VNumber n => pretty n
  | VBool b => if b then "true" else "false"
  end.

(** Modelled from the spec: rendering substitutes environment values into
    the named placeholders of a body; the first placeholder the
    environment does not define is returned on the left. *)
Fixpoint render_body (env : Environment) (body : list chunk) : string + string :=
  match body with
  | [] => inr ""
  | Text s :: body' =>
      match render_body env body' with
      | inl key => inl key
      | inr text => inr (s +:+ text)
      end
  | Placeholder name :: body' =>
      match env !! name with
      | None => inl name
      | Some v =>
          match render_body env body' with
          | inl key => inl key
          | inr text => inr (show v +:+ text)
          end
      end
  end.

(** Modelled from the spec: a directory is created where it is missing. *)
Definition ensure_dir (p : string) (fs : filesystem) : filesystem :=
  match fs !! p with
  | None => <[p := Dir]> fs
  | Some _ => fs
  end.

(** Modelled from the spec: step 3 of section 4.4, the missing parent
    directories of an entry are created below the target. *)
Definition mkdir_parents (target : string) (segs : list string)
    (fs : filesystem) : filesystem :=
  foldl (λ acc p, ensure_dir (resolved target p) acc) fs (parents segs).

(** An entry with no condition is always rendered. *)
Definition enabled (env : Environment) (e : entry) : bool :=
  match entry_cond e with
  | None => true
  | Some cond => cond env
  end.

Definition trace_line (trace : bool) (action path : string) : list string :=
  if trace then [action +:+ " " +:+ path] else [].

(** Modelled from the spec: the loop over the entries of section 4.4, in
    declaration order. A false condition skips the entry; an undefined
    placeholder aborts the run and leaves what was written; otherwise the
    parents are created and the rendered bytes written. The spec names no
    failure of the two filesystem steps, so they have none here. The
    third component is the trace output. *)
Fixpoint run_entries (target : string) (env : Environment) (trace : bool)
    (entries : list entry) (fs : filesystem) (out : list string)
    : option failure * filesystem * list string :=
  match entries with
  | [] => (None, fs, out)
  | e :: entries' =>
      let path := resolved target (entry_path e) in
      if enabled env e then
        match render_body env (entry_body e) with
        | inl key => (Some (RenderError (entry_path e) key), fs, out)
        | inr text =>
            let fs1 := mkdir_parents target (entry_path e) fs in
            let fs2 := <[path := File text]> fs1 in
            run_entries target env trace entries' fs2
              (out ++ trace_line trace "created" path)
        end
      else
        run_entries target env trace entries' fs
          (out ++ trace_line trace "skipped" path)
  end.

(** Modelled from the spec: [Bundle.Run] of section 4.4. The run fails at
    once when the target exists; otherwise the target directory is created
    and the entries are rendered into it. *)
Definition Run (b : Bundle) (target : string) (env : Environment)
    (trace : bool) (fs : filesystem)
    : option failure * filesystem * list string :=
  match fs !! target with
  | Some _ => (Some (TargetExistsError target), fs, [])
  | None => run_entries target env trace (Entries b) (<[target := Dir]> fs) []
  end.

(** A path is inside a target when it is the target or lies below it. *)
Definition inside (target p : string) : bool :=
  bool_decide (p = target) || strings.HasPrefix p (target +:+ "/").

(** A target is fresh when the filesystem holds nothing inside it. *)
Definition fresh (target : string) (fs : filesystem) : Prop :=
  map_Forall (λ p _, inside target p = false) fs.

(** The output tree of a target: what the filesystem holds at the target
    ([rel = ""]) and at each path [rel = "/..."] below it. *)
Definition tree (fs : filesystem) (target rel : string) : option node :=
  fs !! (target +:+ rel).

(** The texts that name the target or a path below it. *)
Definition relative (rel : string) : Prop :=
  rel = "" ∨ ∃ s, rel = "/" +:+ s.

(** Two targets hold the same output tree when they hold the same entry
    at each relative path. *)
Definition same_tree (fs1 : filesystem) (t1 : string)
    (fs2 : filesystem) (t2 : string) : Prop :=
  ∀ rel, relative rel → tree fs1 t1 rel = tree fs2 t2 rel.

Definition message (f : failure) : string :=
  match f with
  | TargetExistsError t => "target exists: " +:+ t
  | RenderError e key => "render " +:+ under e +:+ ": missing " +:+ key
  end.

End scaffold.

(** ** A machine to run the command on

    One implementation of the collaborators, small enough to compute with:
    a disk, a library of the bundles that paths and URLs resolve to, and
    an authority store that may be out of reach. The theorems below hold
    for every implementation; this one serves to run them. *)

Module sample.

Record machine : Type := mkMachine {
  disk : scaffold.filesystem;
  library : gmap string Bundle;
  operators : option (list string)
}.

Definition is_letter (c : Ascii.ascii) : bool :=
  let n := Ascii.N_of_ascii c in
  ((97 <=? n) && (n <=? 122) || (65 <=? n) && (n <=? 90))%N.

Definition is_scheme_sign (c : Ascii.ascii) : bool :=
  let n := Ascii.N_of_ascii c in
  ((48 <=? n) && (n <=? 57) || (n =? 43) || (n =? 45) || (n =? 46))%N.

(** The scheme of a raw URL, in the manner of net/url: letters, then
    letters, digits and signs, up to the first colon. A colon in front is
    an error; any other character means there is no scheme. *)
Fixpoint getScheme (raw : string) (first : bool) (seen s : string)
    : reply (string * string) :=
  match s with
  | EmptyString => inr ("", raw)
  | String ch s' =>
      if is_letter ch then getScheme raw false (seen +:+ String ch "") s'
      else if is_scheme_sign ch then
        if first then inr ("", raw)
        else getScheme raw false (seen +:+ String ch "") s'
      else if Ascii.eqb ch ":"%char then
        if first then inl "missing protocol scheme" else inr (seen, s')
      else inr ("", raw)
  end.

(** The text before the first slash, and the rest from that slash on. *)
Fixpoint cut (s : string) : string * string :=
  match s with
  | EmptyString => ("", "")
  | String ch s' =>
      if Ascii.eqb ch "/"%char then ("", s)
      else let '(a, b) := cut s' in (String ch a, b)
  end.

Definition Parse (raw : string) : reply URL :=
  match getScheme raw true "" raw with
  | inl e => inl e
  | inr (scheme, rest) =>
      match rest with
      | String "/"%char (String "/"%char authority) =>
          let '(host, path) := cut authority in
          inr {| Scheme := scheme; Host := host; Path := path |}
      | _ =>
          if negb (strings.HasPrefix rest "/") && bool_decide (scheme = "")
             && strings.Contains (cut rest).1 ":"
          then inl "first path segment in URL cannot contain colon"
          else inr {| Scheme := scheme; Host := ""; Path := rest |}
      end
  end.

Definition location (uri : URL) : string :=
  Scheme uri +:+ "://" +:+ Host uri +:+ Path uri.

Definition fetch (key : string) (w : machine) : reply Bundle * machine :=
  match library w !! key with
  | Some b => (inr b, w)
  | None => (inl ("not found: " +:+ key), w)
  end.

Definition write (b : Bundle) (target : string) (env : Environment)
    (trace : bool) (w : machine) : option string * machine :=
  let '(r, fs, _) := scaffold.Run b target env trace (disk w) in
  (scaffold.message <$> r,
   {| disk := fs; library := library w; operators := operators w |}).

#[global] Instance collaborators : Collaborators machine (list string) := {|
  FileExists p w := bool_decide (is_Some (disk w !! p));
  url_Parse := Parse;
  scaffold_FromUrl uri := fetch (location uri);
  scaffold_FromFile := fetch;
  GetAuthBuilder w :=
    match operators w with
    | Some ops => (inr ops, w)
    | None => (inl "authority store unavailable", w)
    end;
  Operators_List auth w := (auth, w);
  Bundle_Run := write
|}.

(** The same machine cut off from its authority store: the handle cannot
    be obtained, whatever the machine holds. *)
Definition cut_off : Collaborators machine unit := {|
  FileExists p w := bool_decide (is_Some (disk w !! p));
  url_Parse := Parse;
  scaffold_FromUrl uri := fetch (location uri);
  scaffold_FromFile := fetch;
  GetAuthBuilder w := (inl "authority store unavailable", w);
  Operators_List _ w := ([], w);
  Bundle_Run := write
|}.

(** A bundle of two files, the second one in a directory. *)
Definition plain : Bundle := {|
  Requires := {| Operator := false |};
  Variables := [];
  Entries :=
    [ {| entry_path := ["server.conf"];
         entry_body := [Text "# from "; Placeholder "_source"];
         entry_cond := None |};
      {| entry_path := ["conf.d"; "jetstream.conf"];
         entry_body := [Text "store_dir: "; Placeholder "_target"];
         entry_cond := None |} ];
  Metadata := "plain"
|}.

(** The same files, for a server that needs an operator. *)
Definition secured : Bundle := {|
  Requires := {| Operator := true |};
  Variables := [ {| var_name := "name"; var_default := Some (VString "world") |} ];
  Entries := Entries plain;
  Metadata := "secured"
|}.

Definition shelf : gmap string Bundle :=
  <["bundles/plain.yaml" := plain]>
    (<["bundles/secured.yaml" := secured]>
       (<["https://example.net/secured.yaml" := secured]> ∅)).

(** A machine with a home directory, and an authority store as given. *)
Definition laptop (ops : option (list string)) : machine := {|
  disk := <["home" := scaffold.Dir]> ∅;
  library := shelf;
  operators := ops
|}.

Definition quiet : Options := {| Trace := false |}.

(** Commands to run on the laptop. *)
Definition from_file : serverGenerateCmd :=
  {| source := "bundles/plain.yaml"; target := "out" |}.

Definition into_home : serverGenerateCmd :=
  {| source := "bundles/plain.yaml"; target := "home" |}.

Definition secured_from_file : serverGenerateCmd :=
  {| source := "bundles/secured.yaml"; target := "out" |}.

Definition secured_from_url : serverGenerateCmd :=
  {| source := "https://example.net/secured.yaml"; target := "out" |}.

Definition no_scheme : serverGenerateCmd :=
  {| source := "/srv/a://b"; target := "out" |}.

Definition drive_letter : serverGenerateCmd :=
  {| source := "C:/bundles/plain.yaml"; target := "out" |}.

Definition bare_separator : serverGenerateCmd :=
  {| source := "://foo"; target := "out" |}.

(** The bundle of the greeting: one file, [Hello] and a name. *)
Definition greeting : Bundle := {|
  Requires := {| Operator := false |};
  Variables := [ {| var_name := "name"; var_default := Some (VString "world") |} ];
  Entries :=
    [ {| entry_path := ["config.txt"];
         entry_body := [Text "Hello "; Placeholder "name"];
         entry_cond := None |} ];
  Metadata := "greeting"
|}.

(** The call to the renderer that [from_file] ends with. *)
Definition from_file_render : event :=
  succeeded (CallRun plain "out" (build_env from_file) false).

End sample.

(** ** The publish and request commands

    The second source file holds the [pub] and [request] commands:
    [prepareMsg], [doReq] and [publish], methods of [pubCmd]. They talk to
    a message bus, to the terminal, to the clock and to the template
    engine; these are an interface again ([Messaging]). The commands are
    written against it in a monad that threads the world, records what was
    done, and counts the fuel of the one loop. *)

Module pub.

(** [strings.HasSuffix]. *)
Fixpoint HasSuffix (s suffix : string) : bool :=
  String.eqb s suffix ||
  match s with
  | EmptyString => false
  | String _ s' => HasSuffix s' suffix
  end.

(** Go's [int] has the width of the platform; the release builds both. *)
Inductive arch : Type := Arch32 | Arch64.

Definition bits (a : arch) : Z :=
  match a with Arch32 => 32 | Arch64 => 64 end.

Definition MaxInt (a : arch) : Z := 2 ^ (bits a - 1) - 1.

Definition MinInt (a : arch) : Z := - 2 ^ (bits a - 1).

(** The value an [int] holds after an arithmetic result [z]. *)
Definition wrap (a : arch) (z : Z) : Z :=
  (z + 2 ^ (bits a - 1)) `mod` 2 ^ bits a - 2 ^ (bits a - 1).

(** What the build and the globals fix: the width of [int] and the
    [timeout] of a request, in nanoseconds. *)
Record Config : Type := mkConfig {
  IntSize : arch;
  timeout : Z
}.

(** [nats.Msg]. *)
Record Msg : Type := mkMsg {
  Subject : string;
  Reply : string;
  Data : string;
  Header : gmap string (list string)
}.

(** [nats.NewMsg]. *)
Definition NewMsg (subject : string) : Msg :=
  {| Subject := subject; Reply := ""; Data := ""; Header := ∅ |}.

Record pubCmd : Type := mkPubCmd {
  subject : string;
  body : string;
  req : bool;
  replyTo : string;
  raw : bool;
  hdrs : list string;
  cnt : Z
}.

(** The data a body template is executed on. *)
Record pubData : Type := mkPubData {
  Cnt : Z;
  Unix : Z;
  UnixNano : Z;
  TimeStamp : string;
  Time : string
}.

(** [time.RFC3339] and [time.Kitchen]. *)
Definition RFC3339 : string := "2006-01-02T15:04:05Z07:00".
Definition Kitchen : string := "3:04PM".

(** The collaborators of the two commands. A [range] over a Go map visits
    its entries in an order the runtime picks; [range_Header] is that
    pick, and [range_Header_perm] says it visits every entry once. *)
Class Messaging (W Conn Tmpl Instant : Type) : Type := {
  newNatsConn : W → reply Conn * W;
  Conn_Close : Conn → W → W;
  IsTerminal : W → bool;
  ReadAll : W → reply string * W;
  template_Parse : string → reply Tmpl;
  template_Execute : Tmpl → pubData → reply string;
  time_Now : W → Instant * W;
  time_Since : Instant → W → Z * W;
  Instant_Unix : Instant → Z;
  Instant_UnixNano : Instant → Z;
  Instant_Format : Instant → string → string;
  parseStringsToHeader : list string → Msg → option string * Msg;
  Conn_RequestMsg : Conn → Msg → Z → W → reply Msg * W;
  Conn_PublishMsg : Conn → Msg → W → option string * W;
  Conn_Flush : Conn → W → option string * W;
  Conn_LastError : Conn → W → option string * W;
  range_Header : gmap string (list string) → W → list (string * list string) * W;
  range_Header_perm : ∀ h w, (range_Header h w).1 ≡ₚ map_to_list h
}.

(** An argument of a log line. *)
Inductive value : Type :=
| Str (s : string)
| Int (n : Z)
| Dur (d : Z).

(** What a command did, as seen from outside. An error a call came back
    with is kept with it; that of [Flush] is not, the code drops it. *)
Inductive action : Type :=
| Connect (err : option string)
| Close
| AskTerminal (answer : bool)
| ReadStdin (err : option string)
| Printf (format : string) (args : list value)
| LogPrintln (text : string)
| Println (text : string)
| ParseTemplate (text : string) (err : option string)
| Execute (data : pubData) (err : option string)
| Request (msg : Msg) (timeout : Z) (err : option string)
| Publish (msg : Msg) (err : option string)
| Flush
| LastError (err : option string).

Definition action_err (a : action) : option string :=
  match a with
  | Connect err | ReadStdin err | ParseTemplate _ err | Execute _ err
  | Request _ _ err | Publish _ err | LastError err => err
  | _ => None
  end.

(** The line feed, Go's ["\n"]. The formats of the log lines are kept as
    the source spells them, escapes included. *)
Definition newline : string := String "010"%char "".

(** What [fmt.Println] put on standard output. *)
Fixpoint stdout (acts : list action) : string :=
  match acts with
  | [] => ""
  | Println text :: acts' => text +:+ newline +:+ stdout acts'
  | _ :: acts' => stdout acts'
  end.

(** The messages handed to [PublishMsg], oldest first. *)
Fixpoint published (acts : list action) : list Msg :=
  match acts with
  | [] => []
  | Publish msg _ :: acts' => msg :: published acts'
  | _ :: acts' => published acts'
  end.

(** The message numbers the template was executed on, oldest first. *)
Fixpoint numbers (acts : list action) : list Z :=
  match acts with
  | [] => []
  | Execute data _ :: acts' => Cnt data :: numbers acts'
  | _ :: acts' => numbers acts'
  end.

(** The header lines logged: the two arguments of each ["%s: %s"]. *)
Fixpoint header_lines (acts : list action) : list (string * string) :=
  match acts with
  | [] => []
  | Printf format [Str h; Str val] :: acts' =>
      if decide (format = "%s: %s") then (h, val) :: header_lines acts'
      else header_lines acts'
  | _ :: acts' => header_lines acts'
  end.

(** The entries of a header, one pair for each value. *)
Definition pairs (kvs : list (string * list string)) : list (string * string) :=
  kv ← kvs; (λ val, (kv.1, val)) <$> kv.2.

(** The log line of a published message, and of nothing else. *)
Definition is_published_line (a : action) : bool :=
  match a with
  | Printf format _ => bool_decide (format = "Published %d bytes to %q\n")
  | _ => false
  end.

Definition is_log (a : action) : bool :=
  match a with
  | Printf _ _ | LogPrintln _ => true
  | _ => false
  end.

(** The actions that only the publishing path performs. *)
Definition is_publishing (a : action) : bool :=
  match a with
  | ParseTemplate _ _ | Execute _ _ | Publish _ _ | Flush | LastError _ => true
  | _ => false
  end.

Definition is_request (a : action) : bool :=
  match a with Request _ _ _ => true | _ => false end.


Definition is_close (a : action) : bool :=
  match a with Close => true | _ => false end.

(** How a command ends: it returns, with or without an error, or it is
    still in its loop when the fuel is spent. *)
Inductive outcome (A : Type) : Type :=
| Done (a : A)
| Fail (e : error)
| Spent.
Arguments Done {A} a.
Arguments Fail {A} e.
Arguments Spent {A}.

Record run_state (W : Type) : Type := mkRunState {
  wld : W;
  acts : list action
}.
Arguments mkRunState {W} wld acts.
Arguments wld {W} r.
Arguments acts {W} r.

Section Monad.

Context {W : Type}.

Definition P (A : Type) : Type := run_state W → outcome A * run_state W.

#[export] Instance P_ret : MRet P := λ A a st, (Done a, st).

#[export] Instance P_bind : MBind P := λ A B k m st,
  match m st with
  | (Done a, st') => k a st'
  | (Fail e, st') => (Fail e, st')
  | (Spent, st') => (Spent, st')
  end.

Definition did (a : action) (w : W) (st : run_state W) : run_state W :=
  {| wld := w; acts := acts st ++ [a] |}.

(** A call on the world; [a] tells which action its answer is kept as. *)
Definition call {A : Type} (f : W → A * W) (a : A → action) : P A :=
  λ st, let '(r, w') := f (wld st) in (Done r, did (a r) w' st).

(** A call on the world that is not kept. *)
Definition quietly {A : Type} (f : W → A * W) : P A :=
  λ st, let '(r, w') := f (wld st) in
        (Done r, {| wld := w'; acts := acts st |}).

(** Output, and calls that do not touch the world. *)
Definition note (a : action) : P unit :=
  λ st, (Done tt, did a (wld st) st).

(** [if err != nil { return err }]. *)
Definition guard (err : option string) : P unit :=
  match err with
  | Some e => λ st, (Fail (Returned e), st)
  | None => mret tt
  end.

Definition check {A : Type} (r : reply A) : P A :=
  match r with
  | inl e => λ st, (Fail (Returned e), st)
  | inr a => mret a
  end.

Definition spent {A : Type} : P A := λ st, (Spent, st).

(** [defer]: [later] runs when [m] returns, whatever it returns; it does
    not run while [m] has not returned. *)
Definition defer {A : Type} (later : P unit) (m : P A) : P A :=
  λ st, match m st with
        | (Spent, st') => (Spent, st')
        | (r, st') => (r, (later st').2)
        end.

End Monad.

Section Commands.

Context {W Conn Tmpl Instant : Type} {B : Messaging W Conn Tmpl Instant}.

(** Lines 76 to 82. The message is returned with the error, as in the
    source. *)
Definition prepareMsg (c : pubCmd) (data : string) : Msg * option string :=
  let msg := NewMsg (subject c) in
  let msg := {| Subject := Subject msg; Reply := replyTo c;
                Data := Data msg; Header := Header msg |} in
  let msg := {| Subject := Subject msg; Reply := Reply msg;
                Data := data; Header := Header msg |} in
  let '(err, msg) := parseStringsToHeader (hdrs c) msg in
  (msg, err).

(** Lines 108 to 112: one log line for each value of each header. *)
Fixpoint log_values (h : string) (vals : list string) : @P W unit :=
  match vals with
  | [] => mret tt
  | val :: vals' =>
      note (Printf "%s: %s" [Str h; Str val]);;
      log_values h vals'
  end.

Fixpoint log_headers (kvs : list (string * list string)) : @P W unit :=
  match kvs with
  | [] => mret tt
  | (h, vals) :: kvs' => log_values h vals;; log_headers kvs'
  end.

(** Lines 84 to 123. *)
Definition doReq (cfg : Config) (c : pubCmd) (nc : Conn) : @P W unit :=
  start ← quietly time_Now;
  (if raw c then mret tt
   else note (Printf "Sending request on %q\n" [Str (subject c)]));;
  let '(msg, err) := prepareMsg c (body c) in
  guard err;;
  r ← call (Conn_RequestMsg nc msg (timeout cfg))
        (λ r, Request msg (timeout cfg) (reply_err r));
  m ← check r;
  if raw c then
    note (Println (Data m))
  else
    rtt ← quietly (time_Since start);
    note (Printf "Received on %q rtt %v" [Str (Subject m); Dur rtt]);;
    (if decide (0 < size (Header m)) then
       kvs ← quietly (range_Header (Header m));
       log_headers kvs;;
       note (Println "")
     else mret tt);;
    note (Println (Data m));;
    if HasSuffix (Data m) newline then mret tt else note (Println "").

(** Lines 163 to 192: one turn of the loop, for message number [i]. *)
Definition turn (c : pubCmd) (nc : Conn) (t : Tmpl) (i : Z) : @P W unit :=
  now ← quietly time_Now;
  let data := {| Cnt := i;
                 Unix := Instant_Unix now;
                 UnixNano := Instant_UnixNano now;
                 TimeStamp := Instant_Format now RFC3339;
                 Time := Instant_Format now Kitchen |} in
  let r := template_Execute t data in
  note (Execute data (reply_err r));;
  text ← check r;
  let '(msg, err) := prepareMsg c text in
  guard err;;
  err ← call (Conn_PublishMsg nc msg) (Publish msg);
  guard err;;
  call (Conn_Flush nc) (λ _, Flush);;
  err ← call (Conn_LastError nc) LastError;
  guard err;;
  note (Printf "Published %d bytes to %q\n"
          [Int (Z.of_nat (String.length (body c))); Str (subject c)]).

(** Lines 162 to 193: the loop, from message number [i] on. Each turn
    takes one unit of fuel; [i++] is an addition on [int]. *)
Fixpoint publish_loop (fuel : nat) (cfg : Config) (c : pubCmd) (nc : Conn)
    (t : Tmpl) (i : Z) : @P W unit :=
  if (i <=? cnt c)%Z then
    match fuel with
    | 0 => spent
    | S fuel' =>
        turn c nc t i;;
        publish_loop fuel' cfg c nc t (wrap (IntSize cfg) (i + 1))
    end
  else mret tt.

Definition with_body (c : pubCmd) (text : string) : pubCmd :=
  {| subject := subject c; body := text; req := req c; replyTo := replyTo c;
     raw := raw c; hdrs := hdrs c; cnt := cnt c |}.

Definition with_cnt (c : pubCmd) (n : Z) : pubCmd :=
  {| subject := subject c; body := body c; req := req c; replyTo := replyTo c;
     raw := raw c; hdrs := hdrs c; cnt := n |}.

(** Lines 132 to 139: the payload is read from standard input when the
    body is the placeholder and standard output is a terminal. *)
Definition read_payload (c : pubCmd) : @P W pubCmd :=
  if decide (body c = "!nil!") then
    tty ← call (λ w, (IsTerminal w, w)) AskTerminal;
    if (tty : bool) then
      note (LogPrintln "Reading payload from STDIN");;
      r ← call ReadAll (λ r, ReadStdin (reply_err r));
      text ← check r;
      mret (with_body c text)
    else mret c
  else mret c.

(** Lines 141 to 195: a request, or the template and the loop. *)
Definition work (fuel : nat) (cfg : Config) (c : pubCmd) (nc : Conn)
    : @P W unit :=
  if req c then doReq cfg c nc
  else
    let r := template_Parse (body c) in
    note (ParseTemplate (body c) (reply_err r));;
    t ← check r;
    let c := if decide (cnt c < 1)%Z then with_cnt c 1 else c in
    publish_loop fuel cfg c nc t 1.

(** Lines 132 to 195: what [publish] does once it is connected. *)
Definition session (fuel : nat) (cfg : Config) (c : pubCmd) (nc : Conn)
    : @P W unit :=
  c ← read_payload c;
  work fuel cfg c nc.

(** [nc.Close()]. *)
Definition close (nc : Conn) : @P W unit :=
  call (λ w, (tt, Conn_Close nc w)) (λ _, Close).

(** Lines 125 to 197. *)
Definition publish (fuel : nat) (cfg : Config) (c : pubCmd) : @P W unit :=
  r ← call newNatsConn (λ r, Connect (reply_err r));
  nc ← check r;
  defer (close nc) (session fuel cfg c nc).

(** A command run from a world in which nothing was done yet. *)
Definition run (fuel : nat) (cfg : Config) (c : pubCmd) (w : W)
    : outcome unit * run_state W :=
  publish fuel cfg c {| wld := w; acts := [] |}.

(** The same collaborators with a [Flush] that reports no error. *)
Definition silent_flush (K : Messaging W Conn Tmpl Instant)
    : Messaging W Conn Tmpl Instant := {|
  newNatsConn := newNatsConn (Messaging := K);
  Conn_Close := Conn_Close (Messaging := K);
  IsTerminal := IsTerminal (Messaging := K);
  ReadAll := ReadAll (Messaging := K);
  template_Parse := template_Parse (Messaging := K);
  template_Execute := template_Execute (Messaging := K);
  time_Now := time_Now (Messaging := K);
  time_Since := time_Since (Messaging := K);
  Instant_Unix := Instant_Unix (Messaging := K);
  Instant_UnixNano := Instant_UnixNano (Messaging := K);
  Instant_Format := Instant_Format (Messaging := K);
  parseStringsToHeader := parseStringsToHeader (Messaging := K);
  Conn_RequestMsg := Conn_RequestMsg (Messaging := K);
  Conn_PublishMsg := Conn_PublishMsg (Messaging := K);
  Conn_Flush nc w := (None, (Conn_Flush (Messaging := K) nc w).2);
  Conn_LastError := Conn_LastError (Messaging := K);
  range_Header := range_Header (Messaging := K);
  range_Header_perm := range_Header_perm (Messaging := K)
|}.

End Commands.

(** What reading the payload may do. *)
Definition payload_action (a : action) : Prop :=
  match a with
  | AskTerminal _ | ReadStdin _ => True
  | LogPrintln text => text = "Reading payload from STDIN"
  | _ => False
  end.

(** What a request may do: it logs only when it is not raw. *)
Definition request_action (c : pubCmd) (a : action) : Prop :=
  match a with
  | Request _ _ _ | Println _ => True
  | Printf _ _ => raw c = false ∧ is_published_line a = false
  | _ => False
  end.

(** What a turn of the loop may do: its one log line carries the length
    of the body of the command. *)
Definition turn_action (c : pubCmd) (a : action) : Prop :=
  match a with
  | Execute _ _ | Publish _ _ | Flush | LastError _ => True
  | Printf format args =>
      format = "Published %d bytes to %q\n" ∧
      args = [Int (Z.of_nat (String.length (body c))); Str (subject c)]
  | _ => False
  end.

(** What a connected command may do, [text] being the body it works
    with: the one given, or the one read. *)
Definition session_action (c : pubCmd) (text : string) (a : action) : Prop :=
  payload_action a ∨
  (req c = true ∧ request_action c a) ∨
  (req c = false ∧
   ((∃ err, a = ParseTemplate text err) ∨ turn_action (with_body c text) a)).

(** The count the loop runs with: at least one. *)
Definition asked (c : pubCmd) : Z := Z.max 1 (cnt c).

(** A computation that returns, whatever the fuel. *)
Definition returns {W A : Type} (m : @P W A) : Prop :=
  ∀ st, (m st).1 ≠ Spent.

(** No action of the list came back with an error. *)
Definition clean (l : list action) : Prop :=
  Forall (λ a, action_err a = None) l.

(** A computation only adds actions, each of them a [Q]. *)
Definition adds {W A : Type} (Q : action → Prop) (m : @P W A) : Prop :=
  ∀ st, ∃ evs, acts (m st).2 = acts st ++ evs ∧ Forall Q evs.

(** A computation started with no failed action ends with none, or it
    fails with the error of the one failed action, the last one. *)
Definition stops_at_first_error {W A : Type} (m : @P W A) : Prop :=
  ∀ st, clean (acts st) →
    match (m st).1 with
    | Fail e =>
        clean (acts (m st).2) ∨
        ∃ pre a msg, acts (m st).2 = pre ++ [a] ∧ clean pre ∧
                     action_err a = Some msg ∧ e = Returned msg
    | _ => clean (acts (m st).2)
    end.

End pub.

(** ** A message bus to run the two commands on

    One implementation of [pub.Messaging], small enough to compute with:
    a server that may be out of reach, accepts a number of messages and
    answers requests with a fixed reply; a clock that ticks at each
    reading; a template engine that knows the message number. *)

Module bus.

Import pub.

Record world : Type := mkWorld {
  reachable : bool;
  tty : bool;
  stdin : reply string;
  clock : Z;
  answer : option Msg;
  quota : nat;
  flush_error : option string;
  last_error : option string;
  delivered : list Msg;
  closed : bool
}.

Definition tick (w : world) : world :=
  {| reachable := reachable w; tty := tty w; stdin := stdin w;
     clock := (clock w + 1)%Z; answer := answer w; quota := quota w;
     flush_error := flush_error w; last_error := last_error w;
     delivered := delivered w; closed := closed w |}.

Definition hang_up (w : world) : world :=
  {| reachable := reachable w; tty := tty w; stdin := stdin w;
     clock := clock w; answer := answer w; quota := quota w;
     flush_error := flush_error w; last_error := last_error w;
     delivered := delivered w; closed := true |}.

Definition deliver (msg : Msg) (w : world) : option string * world :=
  match quota w with
  | 0 => (Some "nats: maximum payload exceeded", w)
  | S q =>
      (None,
       {| reachable := reachable w; tty := tty w; stdin := stdin w;
          clock := clock w; answer := answer w; quota := q;
          flush_error := flush_error w; last_error := last_error w;
          delivered := delivered w ++ [msg]; closed := closed w |})
  end.

(** The text of a template with each [{{.Cnt}}] replaced by the number;
    [skip] counts the characters of a placeholder still to pass over. *)
Fixpoint expand (n : Z) (skip : nat) (s : string) : string :=
  match s with
  | EmptyString => ""
  | String ch s' =>
      match skip with
      | S k => expand n k s'
      | 0 =>
          if strings.HasPrefix s "{{.Cnt}}" then pretty n +:+ expand n 7 s'
          else String ch (expand n 0 s')
      end
  end.

Definition parse (text : string) : reply string :=
  if strings.Contains text "{{" && negb (strings.Contains text "}}")
  then inl "template: body: unclosed action"
  else inr text.

(** The text before the first colon and the text after it, if any. *)
Fixpoint split_colon (s : string) : option (string * string) :=
  match s with
  | EmptyString => None
  | String ch s' =>
      if Ascii.eqb ch ":"%char then Some ("", s')
      else match split_colon s' with
           | Some (k, v) => Some (String ch k, v)
           | None => None
           end
  end.

Fixpoint add_headers (hdrs : list string) (msg : Msg) : option string * Msg :=
  match hdrs with
  | [] => (None, msg)
  | hdr :: hdrs' =>
      match split_colon hdr with
      | None => (Some ("invalid header " +:+ hdr), msg)
      | Some (k, v) =>
          add_headers hdrs'
            {| Subject := Subject msg; Reply := Reply msg; Data := Data msg;
               Header := <[k := default [] (Header msg !! k) ++ [v]]> (Header msg) |}
      end
  end.

#[export] Instance messaging : Messaging world unit string Z := {|
  newNatsConn w :=
    if reachable w then (inr tt, w)
    else (inl "nats: no servers available for connection", w);
  Conn_Close _ := hang_up;
  IsTerminal := tty;
  ReadAll w := (stdin w, w);
  template_Parse := parse;
  template_Execute t data := inr (expand (Cnt data) 0 t);
  time_Now w := (clock w, tick w);
  time_Since start w := ((clock w - start)%Z, w);
  Instant_Unix t := t;
  Instant_UnixNano t := (t * 1000000000)%Z;
  Instant_Format t _ := pretty t;
  parseStringsToHeader := add_headers;
  Conn_RequestMsg _ _ _ w :=
    match answer w with
    | Some m => (inr m, w)
    | None => (inl "nats: timeout", w)
    end;
  Conn_PublishMsg _ := deliver;
  Conn_Flush _ w := (flush_error w, w);
  Conn_LastError _ w := (last_error w, w);
  range_Header h w := (map_to_list h, w);
  range_Header_perm h w := reflexivity (map_to_list h)
|}.

(** A server within reach that takes [q] messages and answers with
    [pong], under two headers. *)
Definition pong : Msg :=
  {| Subject := "_INBOX.1"; Reply := ""; Data := "pong";
     Header := <["Status" := ["ok"]]> (<["Via" := ["a"; "b"]]> ∅) |}.

Definition server (q : nat) : world :=
  {| reachable := true; tty := true; stdin := inr "from stdin";
     clock := 100; answer := Some pong; quota := q;
     flush_error := Some "nats: flush timeout"; last_error := None;
     delivered := []; closed := false |}.

Definition no_server : world :=
  {| reachable := false; tty := true; stdin := inr "from stdin";
     clock := 100; answer := None; quota := 0;
     flush_error := None; last_error := None;
     delivered := []; closed := false |}.

Definition amd64 : Config :=
  {| IntSize := Arch64; timeout := 5000000000%Z |}.

(** [nats pub greetings --count n "hello {{.Cnt}}"]. *)
Definition greet (n : Z) : pubCmd :=
  {| subject := "greetings"; body := "hello {{.Cnt}}"; req := false;
     replyTo := ""; raw := false; hdrs := ["Trace: on"]; cnt := n |}.

(** [nats request ping "ping"], raw or not. *)
Definition ping (quietly : bool) : pubCmd :=
  {| subject := "ping"; body := "ping"; req := true;
     replyTo := ""; raw := quietly; hdrs := []; cnt := 0 |}.


End bus.

(** * Properties *)

(** ** Substrings *)

Lemma HasPrefix_app (p s : string) : strings.HasPrefix (p +:+ s) p = true.
Proof.
  induction p as [|ch p IH]; simpl.
  - by destruct s.
  - by rewrite Ascii.eqb_refl.
Qed.

Lemma HasPrefix_inv (s p : string) :
  strings.HasPrefix s p = true → ∃ rest, s = p +:+ rest.
Proof.
  revert s. induction p as [|ch p IH]; intros s Hs.
  - by exists s.
  - destruct s as [|d s]; simpl in Hs; [done|].
    destruct (Ascii.eqb ch d) eqn:Hcd; [|done].
    apply Ascii.eqb_eq in Hcd as ->.
    destruct (IH _ Hs) as [rest ->]. by exists rest.
Qed.

(** [strings.Contains] holds exactly of the strings that have [substr]
    somewhere inside. *)
Lemma Contains_spec (s substr : string) :
  strings.Contains s substr = true ↔ ∃ before after, s = before +:+ substr +:+ after.
Proof.
  split.
  - induction s as [|ch s IH]; cbn [strings.Contains]; intros Hs.
    + apply orb_true_iff in Hs as [Hs|?]; [|done].
      apply HasPrefix_inv in Hs as [rest ->]. by exists "", rest.
    + apply orb_true_iff in Hs as [Hs|Hs].
      * apply HasPrefix_inv in Hs as [rest ->]. by exists "", rest.
      * destruct (IH Hs) as (before & after & ->).
        by exists (String ch before), after.
  - intros (before & after & ->).
    induction before as [|ch before IH].
    + replace ("" +:+ substr +:+ after) with (substr +:+ after) by done.
      destruct (substr +:+ after) eqn:Heq; cbn [strings.Contains];
        rewrite <- Heq, HasPrefix_app; done.
    + replace (String ch before +:+ substr +:+ after)
        with (String ch (before +:+ substr +:+ after)) by done.
      cbn [strings.Contains]. rewrite IH. apply orb_true_r.
Qed.

(** ** The pipeline, stage by stage *)

Section Pipeline.

Context {W Auth : Type} {K : Collaborators W Auth}.

Implicit Types (opts : Options) (c : serverGenerateCmd) (w : W) (st : state W).

(** What [resolve] returns, spelled out arm by arm. *)
Lemma resolve_eq c st :
  resolve c st =
  if strings.Contains (source c) "://" then
    match url_Parse (source c) with
    | inl e =>
        (Err (Returned e), record (CallUrlParse (source c)) (Some e) (world st) st)
    | inr uri =>
        let st1 := record (CallUrlParse (source c)) None (world st) st in
        if decide (Scheme uri = "") then
          (Err (Errorf "invalid URL %q" [source c]), st1)
        else
          let r := scaffold_FromUrl uri (world st) in
          let st2 := record (CallFromUrl uri) (reply_err r.1) r.2 st1 in
          match r.1 with
          | inl e => (Err (Returned e), st2)
          | inr b => (Ok b, st2)
          end
    end
  else
    let r := scaffold_FromFile (source c) (world st) in
    let st2 := record (CallFromFile (source c)) (reply_err r.1) r.2 st in
    match r.1 with
    | inl e => (Err (Returned e), st2)
    | inr b => (Ok b, st2)
    end.
Proof.
  unfold resolve, mbind, M_bind, request, check, throw, mret, M_ret, record.
  destruct (strings.Contains _ _).
  - destruct (url_Parse (source c)) as [e|uri]; [done|]; simpl.
    destruct (decide _); [done|]; simpl.
    by destruct (scaffold_FromUrl uri (world st)) as [[e|b] w'].
  - by destruct (scaffold_FromFile (source c) (world st)) as [[e|b] w'].
Qed.

(** What [validate] returns. *)
Lemma validate_eq (b : Bundle) st :
  validate b st =
  if Operator (Requires b) then
    let a := GetAuthBuilder (world st) in
    let st1 := record CallGetAuthBuilder (reply_err a.1) a.2 st in
    match a.1 with
    | inl e => (Err (Returned e), st1)
    | inr auth =>
        let l := Operators_List auth a.2 in
        let st2 := record CallOperatorsList None l.2 st1 in
        if decide (length l.1 = 0) then (Err (Errorf "no operator found" []), st2)
        else (Ok tt, st2)
    end
  else (Ok tt, st).
Proof.
  unfold validate, mbind, M_bind, request, perform, check, throw, mret, M_ret,
    record.
  destruct (Operator _); [|done].
  destruct (GetAuthBuilder (world st)) as [[e|auth] w']; [done|]; simpl.
  destruct (Operators_List auth w') as [ops w'']; simpl.
  by destruct (decide _).
Qed.

(** What [render] returns. *)
Lemma render_eq opts c (b : Bundle) (env : Environment) st :
  render opts c b env st =
  let r := Bundle_Run b (target c) env (Trace opts) (world st) in
  let st1 := record (CallRun b (target c) env (Trace opts)) r.1 r.2 st in
  match r.1 with
  | Some e => (Err (Returned e), st1)
  | None => (Ok tt, st1)
  end.
Proof.
  unfold render, mbind, M_bind, invoke, throw, mret, M_ret, record.
  by destruct (Bundle_Run _ _ _ _ _) as [[e|] w'].
Qed.

(** What a run returns, in terms of its three stages. *)
Lemma run_eq opts c w :
  run opts c w =
  if FileExists (target c) w then
    (Err (Errorf "target directory %s already exist" [target c]), checked c w)
  else
    match resolve c (checked c w) with
    | (Err e, st1) => (Err e, st1)
    | (Ok b, st1) =>
        match validate b st1 with
        | (Err e, st2) => (Err e, st2)
        | (Ok _, st2) => render opts c b (build_env c) st2
        end
    end.
Proof.
  unfold run, generateAction, mbind, M_bind, observe, throw; simpl.
  destruct (FileExists (target c) w); reflexivity.
Qed.

End Pipeline.

(** A reply known to carry a value has no error to report. *)
Ltac settle_replies :=
  repeat match goal with
         | H : _ = inr _ |- _ => rewrite H
         end.

(** Every arm of a run, laid open: the equations above are unfolded and
    each answer of a collaborator is split into its cases. *)
Ltac explore :=
  rewrite ?run_eq, ?resolve_eq, ?validate_eq, ?render_eq;
  unfold checked, record, precheck_event, succeeded, failed in *; simpl in *;
  repeat (first
    [ progress simplify_eq/=
    | case_match
    | case_decide
    | progress rewrite ?resolve_eq, ?validate_eq, ?render_eq in * ]).

(** ** The claims about [generateAction] *)

Section Claims.

Context {W Auth : Type} {K : Collaborators W Auth}.

Implicit Types (opts : Options) (c : serverGenerateCmd) (w : W) (st : state W).

(** The calls of the resolver are resolver calls, added after those made
    before. *)
Lemma resolve_calls c st r st' :
  resolve c st = (r, st') →
  ∃ evs, calls st' = calls st ++ evs ∧
         Forall (λ ev, is_resolve ev = true) evs.
Proof.
  rewrite resolve_eq. intros Heq.
  explore; rewrite <- ?app_assoc; eexists; (split; [reflexivity|]);
    repeat constructor.
Qed.

(** A resolver that returns a bundle met no error on the way. *)
Lemma resolve_ok_clean c st b st' :
  resolve c st = (Ok b, st') →
  Forall (λ ev, ev_err ev = None) (calls st) →
  Forall (λ ev, ev_err ev = None) (calls st').
Proof.
  rewrite resolve_eq. intros Heq Hst.
  explore; rewrite ?Forall_app; repeat split; try done;
    repeat constructor; simpl; by settle_replies.
Qed.

(** The calls of the validator are validator calls. *)
Lemma validate_calls b st r st' :
  validate b st = (r, st') →
  ∃ evs, calls st' = calls st ++ evs ∧
         Forall (λ ev, is_validate ev = true) evs.
Proof.
  rewrite validate_eq. intros Heq.
  explore; rewrite <- ?app_assoc; eexists;
    (split; [symmetry; apply app_nil_r || reflexivity|]);
    repeat constructor.
Qed.

(** A validator that passes met no error, and when the bundle requires an
    operator it obtained the store and was given at least one operator. *)
Lemma validate_ok b st st' :
  validate b st = (Ok tt, st') →
  (Forall (λ ev, ev_err ev = None) (calls st) →
   Forall (λ ev, ev_err ev = None) (calls st')) ∧
  (Operator (Requires b) = true →
   ∃ auth w2, GetAuthBuilder (world st) = (inr auth, w2) ∧
              (Operators_List auth w2).1 ≠ []).
Proof.
  rewrite validate_eq. intros Heq. split.
  - intros Hst. explore; rewrite ?Forall_app; repeat split; try done;
      repeat constructor; simpl; by settle_replies.
  - intros Hop. rewrite Hop in Heq.
    destruct (GetAuthBuilder (world st)) as [[e|auth] w2] eqn:Hget;
      simpl in Heq; [done|].
    exists auth, w2. split; [done|].
    destruct (decide _) as [Hlen|Hlen]; [done|].
    intros Hnil. by rewrite Hnil in Hlen.
Qed.

(** A resolver that only reads leaves the world as it found it. *)
Lemma resolve_world c st r st' :
  read_only → resolve c st = (r, st') → world st' = world st.
Proof.
  intros (Hurl & Hfile & _ & _). rewrite resolve_eq. intros Heq.
  explore; auto.
Qed.

Lemma resolve_calls_checked c w r st' (P : event → Prop) :
  resolve c (checked c w) = (r, st') →
  P (succeeded (CallFileExists (target c))) →
  (∀ ev, is_resolve ev = true → P ev) →
  Forall P (calls st').
Proof.
  intros Hres Hpre HP.
  destruct (resolve_calls _ _ _ _ Hres) as (evs & -> & Hevs); simpl.
  constructor; [done|]. eapply Forall_impl; [exact Hevs|]. auto.
Qed.

(** C1. When the target path already exists, the run fails with the
    target-exists error and nothing else happens: the lookup of the target
    is the only call made, so the source is not resolved, no requirement is
    validated and the renderer is not run, and the world is the one the run
    started in. The lookup is the first call of the run and is made once,
    ahead of every other stage. *)
Theorem existing_target_stops_the_run opts c w :
  FileExists (target c) w = true →
  run opts c w =
    (Err (Errorf "target directory %s already exist" [target c]),
     {| world := w; calls := [succeeded (CallFileExists (target c))] |}) ∧
  ∀ w', ∃ rest,
    calls (run opts c w').2 = succeeded (CallFileExists (target c)) :: rest ∧
    Forall (λ ev, stage_of (ev_call ev) ≠ Precheck) rest.
Proof.
  intros Hex. split; [by rewrite run_eq, Hex|].
  intros w'. explore; eexists; (split; [reflexivity|]);
    repeat constructor; done.
Qed.

(** C2. The source is sorted by the separator alone. A source with
    [://] in it goes to the URL parser and is never read as a file; when
    parsing fails the run ends with the parser's error, when the parsed URL
    has an empty scheme the run ends with the invalid-URL error, in both
    cases before any fetch; otherwise the bundle is fetched from the parsed
    URL. A source without [://] is read as a local file, whatever else it
    contains, and neither parsed nor fetched as a URL. *)
Theorem source_classification opts c w :
  FileExists (target c) w = false →
  let out := run opts c w in
  (strings.Contains (source c) "://" = true →
     Forall (λ ev, ∀ p, ev_call ev ≠ CallFromFile p) (calls out.2) ∧
     (∀ e, url_Parse (source c) = inl e →
        out = (Err (Returned e),
               {| world := w;
                  calls := [succeeded (CallFileExists (target c));
                            failed (CallUrlParse (source c)) e] |})) ∧
     (∀ uri, url_Parse (source c) = inr uri → Scheme uri = "" →
        out = (Err (Errorf "invalid URL %q" [source c]),
               {| world := w;
                  calls := [succeeded (CallFileExists (target c));
                            succeeded (CallUrlParse (source c))] |})) ∧
     (∀ uri, url_Parse (source c) = inr uri → Scheme uri ≠ "" →
        ∃ rest,
          calls out.2 =
            succeeded (CallFileExists (target c))
            :: succeeded (CallUrlParse (source c))
            :: {| ev_call := CallFromUrl uri;
                  ev_err := reply_err (scaffold_FromUrl uri w).1 |}
            :: rest ∧
          Forall (λ ev, is_resolve ev = false) rest)) ∧
  (strings.Contains (source c) "://" = false →
     ∃ rest,
       calls out.2 =
         succeeded (CallFileExists (target c))
         :: {| ev_call := CallFromFile (source c);
               ev_err := reply_err (scaffold_FromFile (source c) w).1 |}
         :: rest ∧
       Forall (λ ev, is_resolve ev = false) rest).
Proof.
  intros Hfresh out. subst out. split; intros Hsep.
  - split; [|split; [|split]].
    + explore; repeat constructor; done.
    + intros e He. by rewrite run_eq, Hfresh, resolve_eq, Hsep, He.
    + intros uri Huri Hscheme.
      rewrite run_eq, Hfresh, resolve_eq, Hsep, Huri; simpl.
      by rewrite decide_True.
    + intros uri Huri Hscheme.
      rewrite run_eq, Hfresh, resolve_eq, Hsep, Huri; simpl.
      rewrite decide_False by done.
      explore; eexists; (split; [reflexivity|]); repeat constructor.
  - rewrite run_eq, Hfresh, resolve_eq, Hsep.
    explore; eexists; (split; [reflexivity|]); repeat constructor.
Qed.

(** C3. When the resolved bundle requires an operator and the authority
    store lists none, the run fails with the no-operator error right after
    the store was asked: the renderer is not run, and the world is the one
    the store query left, which is the starting world when the resolver and
    the store only read. *)
Theorem missing_operator_stops_the_run opts c w b st1 auth w2 w3 :
  FileExists (target c) w = false →
  resolve c (checked c w) = (Ok b, st1) →
  Operator (Requires b) = true →
  GetAuthBuilder (world st1) = (inr auth, w2) →
  Operators_List auth w2 = ([], w3) →
  run opts c w =
    (Err (Errorf "no operator found" []),
     {| world := w3;
        calls := calls st1 ++ [succeeded CallGetAuthBuilder;
                               succeeded CallOperatorsList] |}) ∧
  Forall (λ ev, is_render ev = false) (calls (run opts c w).2) ∧
  (read_only → world (run opts c w).2 = w ∧ FileExists (target c) w3 = false).
Proof.
  intros Hfresh Hres Hop Hauth Hlist.
  assert (run opts c w =
    (Err (Errorf "no operator found" []),
     {| world := w3;
        calls := calls st1 ++ [succeeded CallGetAuthBuilder;
                               succeeded CallOperatorsList] |})) as Hrun.
  { rewrite run_eq, Hfresh, Hres, validate_eq, Hop, Hauth; simpl.
    rewrite Hlist; simpl. unfold record; simpl.
    by rewrite <- app_assoc. }
  split; [done|]. rewrite Hrun; simpl. split.
  - apply Forall_app. split; [|by repeat constructor].
    apply (resolve_calls_checked _ _ _ _ _ Hres); [done|].
    by intros [[] ?].
  - intros Hro.
    pose proof (resolve_world _ _ _ _ Hro Hres) as Hw1; simpl in Hw1.
    destruct Hro as (_ & _ & Hget & Hls).
    assert (w2 = w) as ->.
    { specialize (Hget (world st1)). rewrite Hauth in Hget. simpl in Hget.
      congruence. }
    assert (w3 = w) as ->.
    { specialize (Hls auth w). by rewrite Hlist in Hls. }
    done.
Qed.

(** C10. When the resolved bundle requires an operator and the handle to
    the authority store cannot be obtained, the run ends with the error the
    store gave, which is not the no-operator error; the operators are not
    listed and the renderer is not run. *)
Theorem store_unreachable_stops_the_run opts c w b st1 e w2 :
  FileExists (target c) w = false →
  resolve c (checked c w) = (Ok b, st1) →
  Operator (Requires b) = true →
  GetAuthBuilder (world st1) = (inl e, w2) →
  run opts c w =
    (Err (Returned e),
     {| world := w2; calls := calls st1 ++ [failed CallGetAuthBuilder e] |}) ∧
  Returned e ≠ Errorf "no operator found" [] ∧
  Forall (λ ev, is_render ev = false ∧ ev_call ev ≠ CallOperatorsList)
    (calls (run opts c w).2).
Proof.
  intros Hfresh Hres Hop Hauth.
  assert (run opts c w =
    (Err (Returned e),
     {| world := w2; calls := calls st1 ++ [failed CallGetAuthBuilder e] |}))
    as Hrun.
  { by rewrite run_eq, Hfresh, Hres, validate_eq, Hop, Hauth. }
  split; [done|]. split; [done|]. rewrite Hrun; simpl.
  apply Forall_app. split; [|by repeat constructor].
  apply (resolve_calls_checked _ _ _ _ _ Hres); [done|].
  by intros [[] ?].
Qed.

(** The renderer is one call, made after the calls before it. *)
Lemma render_calls opts c (b : Bundle) (env : Environment) st :
  calls (render opts c b env st).2 =
  calls st ++ [ {| ev_call := CallRun b (target c) env (Trace opts);
                   ev_err := (Bundle_Run b (target c) env (Trace opts)
                                (world st)).1 |} ].
Proof.
  rewrite render_eq; simpl.
  by destruct (Bundle_Run b (target c) env (Trace opts) (world st)).1.
Qed.

(** The two ways a run can go: it ends before the renderer, with an
    error; or the target was absent, the resolver returned a bundle, the
    validator passed, and the run is what the renderer makes of it. *)
Lemma run_shape opts c w :
  (Forall (λ ev, is_render ev = false) (calls (run opts c w).2) ∧
   ∃ e, (run opts c w).1 = Err e) ∨
  (∃ b st1 st2,
     FileExists (target c) w = false ∧
     resolve c (checked c w) = (Ok b, st1) ∧
     validate b st1 = (Ok tt, st2) ∧
     run opts c w = render opts c b (build_env c) st2 ∧
     Forall (λ ev, is_render ev = false) (calls st2) ∧
     Forall (λ ev, ev_err ev = None) (calls st2)).
Proof.
  rewrite run_eq.
  destruct (FileExists (target c) w) eqn:Hex.
  { left. split; [by repeat constructor|by eexists]. }
  destruct (resolve c (checked c w)) as [[b|e] st1] eqn:Hres.
  2:{ left. split; [|by eexists]; simpl.
      apply (resolve_calls_checked _ _ _ _ _ Hres); [done|]. by intros [[] ?]. }
  assert (Forall (λ ev, is_render ev = false) (calls st1)) as Hst1.
  { apply (resolve_calls_checked _ _ _ _ _ Hres); [done|]. by intros [[] ?]. }
  destruct (validate b st1) as [[[]|e] st2] eqn:Hval.
  - right. exists b, st1, st2.
    destruct (validate_calls _ _ _ _ Hval) as (evs & Hcalls & Hevs).
    destruct (validate_ok _ _ _ Hval) as [Hclean _].
    repeat split; try done.
    + rewrite Hcalls. apply Forall_app. split; [done|].
      eapply Forall_impl; [exact Hevs|]. by intros [[] ?].
    + apply Hclean. apply (resolve_ok_clean _ _ _ _ Hres). by repeat constructor.
  - left. split; [|by eexists]; simpl.
    destruct (validate_calls _ _ _ _ Hval) as (evs & -> & Hevs).
    apply Forall_app. split; [done|].
    eapply Forall_impl; [exact Hevs|]. by intros [[] ?].
Qed.

(** In every run the calls follow the text of [generateAction], each made
    at most once. *)
Lemma calls_in_order opts c w :
  StronglySorted lt (call_rank ∘ ev_call <$> calls (run opts c w).2).
Proof.
  explore; repeat first [ lia | constructor ].
Qed.

(** What is known when the renderer is called. *)
Lemma renderer_call opts c w ev :
  ev ∈ calls (run opts c w).2 → is_render ev = true →
  FileExists (target c) w = false ∧
  ∃ b st1 st2,
    resolve c (checked c w) = (Ok b, st1) ∧
    validate b st1 = (Ok tt, st2) ∧
    (Operator (Requires b) = true →
     ∃ auth w2, GetAuthBuilder (world st1) = (inr auth, w2) ∧
                (Operators_List auth w2).1 ≠ []) ∧
    Forall (λ e, ev_err e = None ∧ is_render e = false) (calls st2) ∧
    ev_call ev = CallRun b (target c) (build_env c) (Trace opts) ∧
    calls (run opts c w).2 = calls st2 ++ [ev].
Proof.
  intros Hin Hrender.
  destruct (run_shape opts c w)
    as [[Hno _]|(b & st1 & st2 & Hex & Hres & Hval & Hrun & Hno & Hclean)].
  { rewrite Forall_forall in Hno. specialize (Hno ev Hin). congruence. }
  split; [done|]. exists b, st1, st2.
  rewrite Hrun, render_calls in Hin |- *.
  apply elem_of_app in Hin as [Hin|Hin].
  { rewrite Forall_forall in Hno. specialize (Hno ev Hin). congruence. }
  apply list_elem_of_singleton in Hin as ->.
  repeat split; try done.
  - by apply (validate_ok _ _ _ Hval).
  - apply Forall_forall. intros e He. split.
    + rewrite Forall_forall in Hclean. auto.
    + rewrite Forall_forall in Hno. auto.
Qed.

(** The arguments of a call to the renderer. *)
Lemma renderer_arguments opts c w ev b t env tr :
  ev ∈ calls (run opts c w).2 → ev_call ev = CallRun b t env tr →
  t = target c ∧ env = build_env c ∧ tr = Trace opts ∧
  FileExists (target c) w = false.
Proof.
  intros Hin Hcall.
  destruct (renderer_call opts c w ev Hin) as (Hex & b' & st1 & st2 & Hrest).
  { unfold is_render. by rewrite Hcall. }
  destruct Hrest as (_ & _ & _ & _ & Hcall' & _).
  rewrite Hcall in Hcall'. by simplify_eq.
Qed.

(** C4. No file is written before the requirements have passed. The calls
    of a run come in the order of the pipeline, each at most once; and
    when the renderer is called, the target was found absent, the resolver
    had returned the bundle, the validator had passed on it (with a store
    that listed an operator, when one is required), no earlier call had
    failed, the environment is the one built from the command, and the
    call to the renderer is the last of the run. *)
Theorem render_only_after_validation opts c w :
  StronglySorted lt (call_rank ∘ ev_call <$> calls (run opts c w).2) ∧
  ∀ ev, ev ∈ calls (run opts c w).2 → is_render ev = true →
    FileExists (target c) w = false ∧
    ∃ b st1 st2,
      resolve c (checked c w) = (Ok b, st1) ∧
      validate b st1 = (Ok tt, st2) ∧
      (Operator (Requires b) = true →
       ∃ auth w2, GetAuthBuilder (world st1) = (inr auth, w2) ∧
                  (Operators_List auth w2).1 ≠ []) ∧
      Forall (λ e, ev_err e = None ∧ is_render e = false) (calls st2) ∧
      ev_call ev = CallRun b (target c) (build_env c) (Trace opts) ∧
      calls (run opts c w).2 = calls st2 ++ [ev].
Proof.
  split; [apply calls_in_order|]. apply renderer_call.
Qed.

(** C5. Whenever the renderer is called, its environment maps [_target]
    to the target string of the command, the very string that was looked
    up and found absent and that the renderer gets as its target, and
    [_source] to the source string of the command, whether it was read as a
    path or parsed as a URL. *)
Theorem reserved_keys_reach_the_renderer opts c w ev b t env tr :
  ev ∈ calls (run opts c w).2 → ev_call ev = CallRun b t env tr →
  env !! "_target" = Some (VString (target c)) ∧
  env !! "_source" = Some (VString (source c)) ∧
  t = target c ∧
  FileExists (target c) w = false.
Proof.
  intros Hin Hcall.
  destruct (renderer_arguments _ _ _ _ _ _ _ _ Hin Hcall) as (-> & -> & -> & Hex).
  repeat split; try done.
Qed.

(** C8. Whenever the renderer is called, its environment has the two keys
    [_target] and [_source] and no other: no variable the bundle declares
    under another name is defined in it. *)
Theorem environment_holds_reserved_keys_only opts c w ev b t env tr :
  ev ∈ calls (run opts c w).2 → ev_call ev = CallRun b t env tr →
  dom env = {[ "_target"; "_source" ]} ∧
  size env = 2 ∧
  ∀ v, v ∈ Variables b →
       var_name v ≠ "_target" → var_name v ≠ "_source" →
       env !! var_name v = None.
Proof.
  intros Hin Hcall.
  destruct (renderer_arguments _ _ _ _ _ _ _ _ Hin Hcall) as (-> & -> & -> & Hex).
  unfold build_env. split; [|split].
  - rewrite !dom_insert_L, dom_empty_L. set_solver.
  - rewrite !map_size_insert_None, map_size_empty; [done|done|].
    by rewrite lookup_insert_ne.
  - intros v _ Ht Hs. by rewrite !lookup_insert_ne.
Qed.

(** C7. The first error is the outcome. A call that comes back with an
    error is the last call of the run and its error is what the run
    returns, as it is; the calls of a run are made in order, none twice;
    the run returns success exactly when the renderer was called and
    returned none, and then no call of the run had failed; and an error
    built by the command itself is returned only when no call had
    failed. *)
Theorem first_error_is_the_outcome opts c w :
  (∀ i ev e, calls (run opts c w).2 !! i = Some ev → ev_err ev = Some e →
     S i = length (calls (run opts c w).2) ∧
     (run opts c w).1 = Err (Returned e)) ∧
  StronglySorted lt (call_rank ∘ ev_call <$> calls (run opts c w).2) ∧
  ((run opts c w).1 = Ok tt ↔
   ∃ ev, ev ∈ calls (run opts c w).2 ∧ is_render ev = true ∧ ev_err ev = None) ∧
  ((run opts c w).1 = Ok tt →
   Forall (λ ev, ev_err ev = None) (calls (run opts c w).2)) ∧
  (∀ format args, (run opts c w).1 = Err (Errorf format args) →
   Forall (λ ev, ev_err ev = None) (calls (run opts c w).2)).
Proof.
  split; [|split; [apply calls_in_order|split; [|split]]].
  - intros i ev e. explore; intros Hi He;
      repeat (destruct i as [|i]; simplify_eq/=; try done).
  - split.
    + intros Hok.
      destruct (run_shape opts c w)
        as [[_ [e He]]|(b & _ & st2 & _ & _ & _ & Hrun & _)]; [congruence|].
      pose proof (render_calls opts c b (build_env c) st2) as Hcalls.
      rewrite Hrun, render_eq in Hok. rewrite Hrun, Hcalls.
      eexists. split; [apply elem_of_app; right; by constructor|].
      split; [done|]; simpl. revert Hok; simpl.
      by destruct (Bundle_Run b (target c) (build_env c) (Trace opts)
                     (world st2)).1.
    + intros (ev & Hin & Hrender & Herr). revert Hin.
      explore; rewrite ?elem_of_cons, ?elem_of_nil; intros Hin;
        try done; destruct_or!; simplify_eq/=; congruence.
  - explore; intros Hok; simplify_eq/=; repeat constructor; done.
  - intros format args.
    explore; intros Hok; simplify_eq/=; repeat constructor; done.
Qed.

(** Resolution does not look at the authority store. *)
Lemma resolve_same_outside_store {A2 : Type} (K2 : Collaborators W A2) c st :
  same_outside_store K K2 →
  resolve (K:=K2) c st = resolve (K:=K) c st.
Proof.
  intros (_ & Hparse & Hurl & Hfile & _).
  rewrite !resolve_eq, Hparse.
  destruct (strings.Contains _ _); [|by rewrite Hfile].
  destruct (url_Parse _) as [e|uri]; [done|]; simpl.
  by rewrite Hurl.
Qed.

(** C9. When no bundle that the source resolves to requires an operator,
    the run makes no call to the authority store, neither for its handle
    nor for its operators, and it is the same run, with the same outcome,
    the same world and the same calls, on any other authority store. *)
Theorem no_requirement_no_store_query {A2 : Type} (K2 : Collaborators W A2)
    opts c w :
  same_outside_store K K2 →
  (∀ b st1, resolve (K:=K) c (checked c w) = (Ok b, st1) →
            Operator (Requires b) = false) →
  Forall (λ ev, is_validate ev = false) (calls (run (K:=K) opts c w).2) ∧
  run (K:=K2) opts c w = run (K:=K) opts c w.
Proof.
  intros Hsame Hno.
  pose proof (resolve_same_outside_store K2 c (checked c w) Hsame) as Hres2.
  destruct Hsame as (Hex & _ & _ & _ & Hrun).
  rewrite !run_eq, Hres2, <- Hex.
  destruct (FileExists (Collaborators:=K) (target c) w);
    [split; [by repeat constructor|done]|].
  destruct (resolve (K:=K) c (checked c w)) as [[b|e] st1] eqn:Hres.
  2:{ split; [|done]; simpl.
      apply (resolve_calls_checked _ _ _ _ _ Hres); [done|]. by intros [[] ?]. }
  rewrite !validate_eq, (Hno b st1 eq_refl).
  split; [|by rewrite !render_eq, Hrun].
  rewrite render_calls. apply Forall_app. split; [|by repeat constructor].
  apply (resolve_calls_checked _ _ _ _ _ Hres); [done|]. by intros [[] ?].
Qed.

End Claims.

(** ** The renderer *)

Section Renderer.

Import scaffold.

Implicit Types (fs : filesystem) (t rel : string) (segs : list string).

Lemma string_app_empty_r (s : string) : s +:+ "" = s.
Proof.
  induction s as [|ch s IH]; [done|].
  change (String ch (s +:+ "") = String ch s). by rewrite IH.
Qed.

Lemma string_app_assoc (a b c : string) : (a +:+ b) +:+ c = a +:+ b +:+ c.
Proof.
  induction a as [|ch a IH]; [done|].
  change (String ch ((a +:+ b) +:+ c) = String ch (a +:+ b +:+ c)).
  by rewrite IH.
Qed.

Lemma under_relative segs : relative (under segs).
Proof. destruct segs as [|s segs]; [by left|right; by eexists]. Qed.

Lemma relative_inside t rel : relative rel → inside t (t +:+ rel) = true.
Proof.
  unfold inside. intros [->|[s ->]].
  - rewrite string_app_empty_r. by rewrite bool_decide_eq_true_2.
  - replace (t +:+ "/" +:+ s) with ((t +:+ "/") +:+ s)
      by apply string_app_assoc.
    rewrite HasPrefix_app. apply orb_true_r.
Qed.

(** A fresh target holds an empty tree. *)
Lemma fresh_tree t fs rel : fresh t fs → relative rel → tree fs t rel = None.
Proof.
  intros Hfresh Hrel. unfold tree.
  destruct (fs !! (t +:+ rel)) as [x|] eqn:Hx; [|done].
  apply Hfresh in Hx. by rewrite relative_inside in Hx.
Qed.

Lemma fresh_absent t fs : fresh t fs → fs !! t = None.
Proof.
  intros Hfresh. rewrite <- (string_app_empty_r t).
  apply (fresh_tree t fs ""); [done|by left].
Qed.

Section TwoTargets.

Variables (t1 t2 : string).

Lemma same_tree_insert fs1 fs2 rel (x : node) :
  same_tree fs1 t1 fs2 t2 →
  same_tree (<[t1 +:+ rel := x]> fs1) t1 (<[t2 +:+ rel := x]> fs2) t2.
Proof.
  intros Hsame rel' Hrel'. unfold tree.
  destruct (decide (rel = rel')) as [->|Hne].
  - by rewrite !lookup_insert_eq.
  - rewrite !lookup_insert_ne; [by apply Hsame| |];
      intros Heq; by apply (inj (String.app _)) in Heq.
Qed.

Lemma same_tree_ensure_dir fs1 fs2 rel :
  relative rel →
  same_tree fs1 t1 fs2 t2 →
  same_tree (ensure_dir (t1 +:+ rel) fs1) t1 (ensure_dir (t2 +:+ rel) fs2) t2.
Proof.
  intros Hrel Hsame. unfold ensure_dir.
  pose proof (Hsame rel Hrel) as Heq. unfold tree in Heq. rewrite Heq.
  destruct (fs2 !! (t2 +:+ rel)); [done|]. by apply same_tree_insert.
Qed.

Lemma same_tree_mkdir_parents fs1 fs2 segs :
  same_tree fs1 t1 fs2 t2 →
  same_tree (mkdir_parents t1 segs fs1) t1 (mkdir_parents t2 segs fs2) t2.
Proof.
  unfold mkdir_parents. generalize (parents segs) as ps.
  intros ps. revert fs1 fs2.
  induction ps as [|p ps IH]; intros fs1 fs2 Hsame; simpl; [done|].
  apply IH. apply same_tree_ensure_dir; [apply under_relative|done].
Qed.

(** The loop writes the same tree under both targets and ends the same
    way, whatever the trace flags and the output so far. *)
Lemma same_tree_run_entries env tr1 tr2 entries fs1 fs2 out1 out2 :
  same_tree fs1 t1 fs2 t2 →
  (run_entries t1 env tr1 entries fs1 out1).1.1
    = (run_entries t2 env tr2 entries fs2 out2).1.1 ∧
  same_tree (run_entries t1 env tr1 entries fs1 out1).1.2 t1
            (run_entries t2 env tr2 entries fs2 out2).1.2 t2.
Proof.
  revert fs1 fs2 out1 out2.
  induction entries as [|e entries IH]; intros fs1 fs2 out1 out2 Hsame; simpl.
  { done. }
  destruct (enabled env e); [|by apply IH].
  destruct (render_body env (entry_body e)) as [key|text]; simpl; [done|].
  apply IH. apply same_tree_insert. by apply same_tree_mkdir_parents.
Qed.

End TwoTargets.

(** C6. Rendering is repeatable. Two runs of the renderer with the same
    bundle and the same environment, each into a target that is fresh in
    its filesystem, end the same way and leave the same output tree under
    their targets: the same entry, with the same bytes, at every relative
    path. Neither the target paths, nor what else the two filesystems
    hold, nor the trace flags make a difference. *)
Theorem rendering_is_repeatable (b : Bundle) (env : Environment)
    (tr1 tr2 : bool) t1 t2 fs1 fs2 :
  fresh t1 fs1 → fresh t2 fs2 →
  (Run b t1 env tr1 fs1).1.1 = (Run b t2 env tr2 fs2).1.1 ∧
  same_tree (Run b t1 env tr1 fs1).1.2 t1 (Run b t2 env tr2 fs2).1.2 t2.
Proof.
  intros Hf1 Hf2. unfold Run.
  rewrite (fresh_absent _ _ Hf1), (fresh_absent _ _ Hf2).
  apply same_tree_run_entries.
  rewrite <- (string_app_empty_r t1) at 1.
  rewrite <- (string_app_empty_r t2) at 1.
  apply same_tree_insert.
  intros rel Hrel. by rewrite !fresh_tree.
Qed.

End Renderer.

(** * The claims at work on the sample machine *)

Section Sample.

Import scaffold sample.

Lemma laptop_read_only : read_only (K := sample.collaborators).
Proof.
  repeat split; simpl; intros; unfold fetch; try by case_match.
Qed.

Lemma existing_target_stops_the_run_witness :
  FileExists (target into_home) (laptop None) = true ∧
  run quiet into_home (laptop None) =
    (Err (Errorf "target directory %s already exist" ["home"]),
     {| world := laptop None;
        calls := [succeeded (CallFileExists "home")] |}).
Proof.
  assert (FileExists (target into_home) (laptop None) = true) as Hex
    by (vm_compute; reflexivity).
  split; [exact Hex|].
  exact (proj1 (existing_target_stops_the_run quiet into_home (laptop None) Hex)).
Defined.

Lemma source_classification_witness :
  FileExists (target no_scheme) (laptop None) = false ∧
  strings.Contains (source no_scheme) "://" = true ∧
  url_Parse (source no_scheme)
    = inr {| Scheme := ""; Host := ""; Path := "/srv/a://b" |} ∧
  run quiet no_scheme (laptop None) =
    (Err (Errorf "invalid URL %q" ["/srv/a://b"]),
     {| world := laptop None;
        calls := [succeeded (CallFileExists "out");
                  succeeded (CallUrlParse "/srv/a://b")] |}).
Proof.
  assert (FileExists (target no_scheme) (laptop None) = false) as Hex
    by (vm_compute; reflexivity).
  assert (strings.Contains (source no_scheme) "://" = true) as Hsep
    by (vm_compute; reflexivity).
  assert (url_Parse (source no_scheme)
            = inr {| Scheme := ""; Host := ""; Path := "/srv/a://b" |}) as Huri
    by (vm_compute; reflexivity).
  split; [exact Hex|]. split; [exact Hsep|]. split; [exact Huri|].
  destruct (source_classification quiet no_scheme (laptop None) Hex)
    as [Hremote _].
  destruct (Hremote Hsep) as (_ & _ & Hempty & _).
  exact (Hempty _ Huri eq_refl).
Defined.

Lemma missing_operator_stops_the_run_witness :
  FileExists (target secured_from_file) (laptop (Some [])) = false ∧
  run quiet secured_from_file (laptop (Some [])) =
    (Err (Errorf "no operator found" []),
     {| world := laptop (Some []);
        calls := [succeeded (CallFileExists "out");
                  succeeded (CallFromFile "bundles/secured.yaml");
                  succeeded CallGetAuthBuilder;
                  succeeded CallOperatorsList] |}) ∧
  world (run quiet secured_from_file (laptop (Some []))).2 = laptop (Some []).
Proof.
  assert (FileExists (target secured_from_file) (laptop (Some [])) = false)
    as Hex by (vm_compute; reflexivity).
  split; [exact Hex|].
  destruct (missing_operator_stops_the_run quiet secured_from_file
              (laptop (Some [])) secured
              {| world := laptop (Some []);
                 calls := [succeeded (CallFileExists "out");
                           succeeded (CallFromFile "bundles/secured.yaml")] |}
              [] (laptop (Some [])) (laptop (Some []))
              Hex eq_refl eq_refl eq_refl eq_refl)
    as (Hrun & _ & Hworld).
  split; [exact Hrun|]. exact (proj1 (Hworld laptop_read_only)).
Defined.

Lemma store_unreachable_stops_the_run_witness :
  FileExists (target secured_from_url) (laptop None) = false ∧
  run quiet secured_from_url (laptop None) =
    (Err (Returned "authority store unavailable"),
     {| world := laptop None;
        calls := [succeeded (CallFileExists "out");
                  succeeded (CallUrlParse "https://example.net/secured.yaml");
                  succeeded (CallFromUrl {| Scheme := "https";
                                            Host := "example.net";
                                            Path := "/secured.yaml" |});
                  failed CallGetAuthBuilder "authority store unavailable"] |}).
Proof.
  assert (FileExists (target secured_from_url) (laptop None) = false)
    as Hex by (vm_compute; reflexivity).
  split; [exact Hex|].
  exact (proj1 (store_unreachable_stops_the_run quiet secured_from_url
                  (laptop None) secured
                  {| world := laptop None;
                     calls := [succeeded (CallFileExists "out");
                               succeeded (CallUrlParse "https://example.net/secured.yaml");
                               succeeded (CallFromUrl {| Scheme := "https";
                                                         Host := "example.net";
                                                         Path := "/secured.yaml" |})] |}
                  "authority store unavailable" (laptop None)
                  Hex eq_refl eq_refl eq_refl)).
Defined.

Lemma from_file_calls :
  calls (run quiet from_file (laptop None)).2 =
    [succeeded (CallFileExists "out");
     succeeded (CallFromFile "bundles/plain.yaml");
     from_file_render].
Proof. vm_compute. reflexivity. Qed.

Lemma from_file_render_called :
  from_file_render ∈ calls (run quiet from_file (laptop None)).2.
Proof. rewrite from_file_calls. do 2 right. left. Qed.

Lemma render_only_after_validation_witness :
  StronglySorted lt
    (call_rank ∘ ev_call <$> calls (run quiet from_file (laptop None)).2) ∧
  FileExists (target from_file) (laptop None) = false.
Proof.
  destruct (render_only_after_validation quiet from_file (laptop None))
    as [Hsorted Hrender].
  split; [exact Hsorted|].
  exact (proj1 (Hrender from_file_render from_file_render_called eq_refl)).
Defined.

Lemma reserved_keys_reach_the_renderer_witness :
  from_file_render ∈ calls (run quiet from_file (laptop None)).2 ∧
  build_env from_file !! "_target" = Some (VString "out") ∧
  build_env from_file !! "_source" = Some (VString "bundles/plain.yaml").
Proof.
  split; [exact from_file_render_called|].
  destruct (reserved_keys_reach_the_renderer quiet from_file (laptop None)
              from_file_render plain "out" (build_env from_file) false
              from_file_render_called eq_refl)
    as (Ht & Hs & _).
  split; [exact Ht|exact Hs].
Defined.

Lemma environment_holds_reserved_keys_only_witness :
  from_file_render ∈ calls (run quiet from_file (laptop None)).2 ∧
  dom (build_env from_file) = {[ "_target"; "_source" ]} ∧
  size (build_env from_file) = 2.
Proof.
  split; [exact from_file_render_called|].
  destruct (environment_holds_reserved_keys_only quiet from_file (laptop None)
              from_file_render plain "out" (build_env from_file) false
              from_file_render_called eq_refl)
    as (Hdom & Hsize & _).
  split; [exact Hdom|exact Hsize].
Defined.

Lemma first_error_is_the_outcome_witness :
  (run quiet secured_from_url (laptop None)).1
    = Err (Returned "authority store unavailable").
Proof.
  destruct (first_error_is_the_outcome quiet secured_from_url (laptop None))
    as (Hfirst & _).
  exact (proj2 (Hfirst 3 (failed CallGetAuthBuilder "authority store unavailable")
                  "authority store unavailable" eq_refl eq_refl)).
Defined.

Lemma cut_off_same_outside_store :
  same_outside_store sample.collaborators cut_off.
Proof. repeat split. Defined.

Lemma no_requirement_no_store_query_witness :
  same_outside_store sample.collaborators cut_off ∧
  Forall (λ ev, is_validate ev = false)
    (calls (run (K := sample.collaborators) quiet from_file (laptop (Some []))).2) ∧
  run (K := cut_off) quiet from_file (laptop (Some []))
    = run (K := sample.collaborators) quiet from_file (laptop (Some [])).
Proof.
  split; [exact cut_off_same_outside_store|].
  apply (no_requirement_no_store_query cut_off quiet from_file
           (laptop (Some [])) cut_off_same_outside_store).
  intros b st1 Hres. vm_compute in Hres.
  injection Hres as <- _. reflexivity.
Defined.

Lemma rendering_is_repeatable_witness :
  fresh "out" (disk (laptop None)) ∧
  fresh "home/site" ∅ ∧
  same_tree
    (Run plain "out" (build_env from_file) false (disk (laptop None))).1.2 "out"
    (Run plain "home/site" (build_env from_file) true ∅).1.2 "home/site".
Proof.
  assert (fresh "out" (disk (laptop None))) as Hf1.
  { apply map_Forall_insert_2; [vm_compute; reflexivity|apply map_Forall_empty]. }
  assert (fresh "home/site" ∅) as Hf2 by apply map_Forall_empty.
  split; [exact Hf1|]. split; [exact Hf2|].
  exact (proj2 (rendering_is_repeatable plain (build_env from_file) false true
                  "out" "home/site" _ _ Hf1 Hf2)).
Defined.

(** The runs of the sample commands, computed. *)

Example from_file_writes_the_tree :
  (run quiet from_file (laptop None)).1 = Ok tt ∧
  map_to_list (disk (world (run quiet from_file (laptop None)).2)) =
    [("out/server.conf", File "# from bundles/plain.yaml");
     ("out/conf.d/jetstream.conf", File "store_dir: out");
     ("out/conf.d", Dir); ("out", Dir); ("home", Dir)].
Proof. split; vm_compute; reflexivity. Qed.

Example bare_separator_is_rejected :
  run quiet bare_separator (laptop None) =
    (Err (Returned "missing protocol scheme"),
     {| world := laptop None;
        calls := [succeeded (CallFileExists "out");
                  failed (CallUrlParse "://foo") "missing protocol scheme"] |}).
Proof. vm_compute. reflexivity. Qed.

Example drive_letter_is_a_path :
  strings.Contains (source drive_letter) "://" = false ∧
  run quiet drive_letter (laptop None) =
    (Err (Returned "not found: C:/bundles/plain.yaml"),
     {| world := laptop None;
        calls := [succeeded (CallFileExists "out");
                  failed (CallFromFile "C:/bundles/plain.yaml")
                    "not found: C:/bundles/plain.yaml"] |}).
Proof. split; vm_compute; reflexivity. Qed.

Example greeting_says_hello :
  (Run greeting "out" {[ "name" := VString "world" ]} true ∅).1.1 = None ∧
  (Run greeting "out" {[ "name" := VString "world" ]} true ∅).1.2
    !! "out/config.txt" = Some (File "Hello world") ∧
  (Run greeting "out" {[ "name" := VString "world" ]} true ∅).2
    = ["created out/config.txt"].
Proof. repeat split; vm_compute; reflexivity. Qed.

Example greeting_needs_a_name :
  (Run greeting "out" (build_env from_file) false ∅).1.1
    = Some (RenderError ["config.txt"] "name").
Proof. vm_compute. reflexivity. Qed.

End Sample.

(** * The publish and request commands *)

(** ** Suffixes *)

Lemma HasSuffix_inv (s suffix : string) :
  pub.HasSuffix s suffix = true → ∃ front, s = front +:+ suffix.
Proof.
  induction s as [|ch s IH]; cbn [pub.HasSuffix]; intros Hs.
  - apply orb_true_iff in Hs as [Hs|?]; [|done].
    apply String.eqb_eq in Hs as <-. by exists "".
  - apply orb_true_iff in Hs as [Hs|Hs].
    + apply String.eqb_eq in Hs as <-. by exists "".
    + destruct (IH Hs) as [front ->]. by exists (String ch front).
Qed.

(** ** Rules for the monad of the commands *)

Section Rules.

Import pub.

Context {W : Type}.

Implicit Types (st : run_state W) (Q : action → Prop).

Lemma bind_eq {A C : Type} (m : @P W A) (k : A → @P W C) st :
  (m ≫= k) st =
  match m st with
  | (Done a, st') => k a st'
  | (Fail e, st') => (Fail e, st')
  | (Spent, st') => (Spent, st')
  end.
Proof. reflexivity. Qed.

Lemma call_eq {A : Type} (f : W → A * W) (a : A → action) st :
  call f a st = (Done (f (wld st)).1, did (a (f (wld st)).1) (f (wld st)).2 st).
Proof. unfold call. by destruct (f (wld st)). Qed.

Lemma quietly_eq {A : Type} (f : W → A * W) st :
  quietly f st =
  (Done (f (wld st)).1, {| wld := (f (wld st)).2; acts := acts st |}).
Proof. unfold quietly. by destruct (f (wld st)). Qed.

Lemma adds_ret {A : Type} Q (a : A) : adds Q (mret a : @P W A).
Proof. intros st. exists []. by rewrite app_nil_r. Qed.

Lemma adds_bind {A C : Type} Q (m : @P W A) (k : A → @P W C) :
  adds Q m → (∀ a, adds Q (k a)) → adds Q (m ≫= k).
Proof.
  intros Hm Hk st. rewrite bind_eq.
  destruct (Hm st) as (evs & Heq & Hevs).
  destruct (m st) as [[a|e|] st']; simpl in *; try by exists evs.
  destruct (Hk a st') as (evs' & Heq' & Hevs').
  exists (evs ++ evs'). rewrite Heq', Heq, app_assoc. split; [done|].
  by apply Forall_app.
Qed.

Lemma adds_note Q (a : action) : Q a → adds Q (note a : @P W unit).
Proof. intros Ha st. exists [a]. split; [done|by constructor]. Qed.

Lemma adds_call {A : Type} Q (f : W → A * W) (a : A → action) :
  (∀ r, Q (a r)) → adds Q (call f a).
Proof.
  intros Ha st. unfold call. destruct (f (wld st)) as [r w'].
  exists [a r]. split; [done|by constructor].
Qed.

Lemma adds_quietly {A : Type} Q (f : W → A * W) : adds Q (quietly f).
Proof.
  intros st. unfold quietly. destruct (f (wld st)) as [r w'].
  exists []. by rewrite app_nil_r.
Qed.

Lemma adds_guard Q (err : option string) : adds Q (guard err : @P W unit).
Proof. intros st. exists []. rewrite app_nil_r. by destruct err. Qed.

Lemma adds_check {A : Type} Q (r : reply A) : adds Q (check r : @P W A).
Proof. intros st. exists []. rewrite app_nil_r. by destruct r. Qed.

Lemma adds_spent {A : Type} Q : adds Q (spent : @P W A).
Proof. intros st. exists []. by rewrite app_nil_r. Qed.

Lemma adds_weaken {A : Type} Q Q' (m : @P W A) :
  (∀ a, Q a → Q' a) → adds Q m → adds Q' m.
Proof.
  intros HQ Hm st. destruct (Hm st) as (evs & Heq & Hevs).
  exists evs. split; [done|]. by eapply Forall_impl.
Qed.

Lemma returns_ret {A : Type} (a : A) : returns (mret a : @P W A).
Proof. by intros st. Qed.

Lemma returns_bind {A C : Type} (m : @P W A) (k : A → @P W C) :
  returns m → (∀ a, returns (k a)) → returns (m ≫= k).
Proof.
  intros Hm Hk st. rewrite bind_eq. specialize (Hm st).
  destruct (m st) as [[a|e|] st']; simpl in *; [apply Hk|done..].
Qed.

Lemma returns_note (a : action) : returns (note a : @P W unit).
Proof. by intros st. Qed.

Lemma returns_call {A : Type} (f : W → A * W) (a : A → action) :
  returns (call f a).
Proof. intros st. unfold call. by destruct (f (wld st)). Qed.

Lemma returns_quietly {A : Type} (f : W → A * W) : returns (quietly f).
Proof. intros st. unfold quietly. by destruct (f (wld st)). Qed.

Lemma returns_guard (err : option string) : returns (guard err : @P W unit).
Proof. intros st. by destruct err. Qed.

Lemma returns_check {A : Type} (r : reply A) : returns (check r : @P W A).
Proof. intros st. by destruct r. Qed.







Lemma sfe_check {A : Type} (r : reply A) :
  stops_at_first_error (check r : @P W A).
Proof. intros st Hst. destruct r; simpl; auto. Qed.





End Rules.

(** ** What each part of the commands does *)

Section Parts.

Import pub.

Context {W Conn Tmpl Instant : Type} {B : Messaging W Conn Tmpl Instant}.

Implicit Types (st : run_state W) (c : pubCmd) (cfg : Config) (nc : Conn)
  (t : Tmpl).

Ltac adds_step :=
  first [ apply adds_bind; [|intros ?]
        | apply adds_ret | apply adds_quietly | apply adds_guard
        | apply adds_check | apply adds_spent
        | apply adds_note | apply adds_call; intros ? ].

Lemma log_values_adds Q (h : string) (vals : list string) :
  (∀ val, Q (Printf "%s: %s" [Str h; Str val])) →
  adds Q (log_values h vals : @P W unit).
Proof.
  intros HQ. induction vals as [|val vals IH]; simpl; [apply adds_ret|].
  apply adds_bind; [by apply adds_note|done].
Qed.

Lemma log_headers_adds Q (kvs : list (string * list string)) :
  (∀ h val, Q (Printf "%s: %s" [Str h; Str val])) →
  adds Q (log_headers kvs : @P W unit).
Proof.
  intros HQ. induction kvs as [|[h vals] kvs IH]; simpl; [apply adds_ret|].
  apply adds_bind; [by apply log_values_adds|done].
Qed.

Lemma doReq_adds cfg c nc : adds (request_action c) (doReq cfg c nc).
Proof.
  unfold doReq. apply adds_bind; [apply adds_quietly|intros start].
  apply adds_bind.
  { destruct (raw c) eqn:Hraw; [apply adds_ret|apply adds_note; by split]. }
  intros _. destruct (prepareMsg c (body c)) as [msg err].
  repeat adds_step; try done.
  destruct (raw c) eqn:Hraw; [by apply adds_note|].
  repeat adds_step; try done.
  - case_decide; [|apply adds_ret].
    repeat adds_step; try done. by apply log_headers_adds.
  - case_match; [apply adds_ret|by apply adds_note].
Qed.

Lemma turn_adds c nc t i : adds (turn_action c) (turn c nc t i).
Proof.
  unfold turn. apply adds_bind; [apply adds_quietly|intros now].
  cbv zeta. apply adds_bind; [by apply adds_note|intros _].
  apply adds_bind; [apply adds_check|intros text].
  destruct (prepareMsg c text) as [msg err].
  repeat adds_step; done.
Qed.

Lemma loop_adds fuel cfg c nc t i :
  adds (turn_action c) (publish_loop fuel cfg c nc t i).
Proof.
  revert i. induction fuel as [|fuel IH]; intros i; simpl;
    destruct (i <=? cnt c)%Z; try apply adds_ret; [apply adds_spent|].
  apply adds_bind; [apply turn_adds|done].
Qed.

Ltac returns_step :=
  first [ apply returns_bind; [|intros ?]
        | apply returns_ret | apply returns_quietly | apply returns_guard
        | apply returns_check | apply returns_note | apply returns_call ].

Lemma log_headers_returns (kvs : list (string * list string)) :
  returns (log_headers kvs : @P W unit).
Proof.
  induction kvs as [|[h vals] kvs IH]; simpl; [apply returns_ret|].
  apply returns_bind; [|done].
  induction vals as [|val vals IHv]; simpl; [apply returns_ret|].
  apply returns_bind; [apply returns_note|done].
Qed.

(** A request returns: it has no loop that could go on. *)
Lemma doReq_returns cfg c nc : returns (doReq cfg c nc).
Proof.
  unfold doReq. apply returns_bind; [apply returns_quietly|intros start].
  apply returns_bind; [destruct (raw c); returns_step|intros _].
  destruct (prepareMsg c (body c)) as [msg err].
  repeat returns_step.
  destruct (raw c); [apply returns_note|].
  repeat returns_step.
  - case_decide; [|apply returns_ret].
    repeat returns_step. apply log_headers_returns.
  - case_match; returns_step.
Qed.

Lemma read_payload_returns c : returns (read_payload c).
Proof.
  unfold read_payload. case_decide; [|apply returns_ret].
  apply returns_bind; [apply returns_call|intros tty]. destruct tty; repeat returns_step.
Qed.

Lemma turn_returns c nc t i : returns (turn c nc t i).
Proof.
  unfold turn. apply returns_bind; [apply returns_quietly|intros now].
  cbv zeta. apply returns_bind; [apply returns_note|intros _].
  apply returns_bind; [apply returns_check|intros text].
  destruct (prepareMsg c text) as [msg err]. repeat returns_step.
Qed.

Lemma with_body_same c : with_body c (body c) = c.
Proof. by destruct c. Qed.

(** Reading the payload changes the body of the command at most. *)
Lemma read_payload_body c st :
  match (read_payload c st).1 with
  | Done c' => ∃ text, c' = with_body c text
  | _ => True
  end.
Proof.
  unfold read_payload. case_decide.
  - unfold mbind, P_bind, call, note, check; simpl.
    destruct (IsTerminal (wld st)); simpl.
    + destruct (ReadAll (wld st)) as [[e|text] w']; simpl; [done|].
      by exists text.
    + exists (body c). by rewrite with_body_same.
  - exists (body c). by rewrite with_body_same.
Qed.

(** A body given on the command line is the body the command works
    with, and nothing is asked or read for it. *)
Lemma read_payload_given c st :
  body c ≠ "!nil!" → read_payload c st = (Done c, st).
Proof. intros Hbody. unfold read_payload. by rewrite decide_False. Qed.

Lemma read_payload_adds c : adds payload_action (read_payload c).
Proof.
  unfold read_payload. case_decide; [|apply adds_ret].
  apply adds_bind; [by apply adds_call|intros tty].
  destruct tty; [|apply adds_ret].
  repeat adds_step; done.
Qed.

(** Everything a connected command does, [text] being its body once the
    payload was read. *)
Lemma session_adds fuel cfg c nc st :
  ∃ text evs,
    (body c ≠ "!nil!" → text = body c) ∧
    acts (session fuel cfg c nc st).2 = acts st ++ evs ∧
    Forall (session_action c text) evs.
Proof.
  destruct (decide (body c = "!nil!")) as [Hnil|Hgiven].
  2:{ unfold session. rewrite bind_eq, read_payload_given by done.
      exists (body c). unfold work.
      destruct (req c) eqn:Hreq.
      - destruct (doReq_adds cfg c nc st) as (evs & Heq & Hevs).
        exists evs. split; [done|]. split; [done|].
        eapply Forall_impl; [exact Hevs|]. intros a Ha. right. left.
        by destruct a.
      - set (c2 := if decide (cnt c < 1)%Z then with_cnt c 1 else c).
        assert (adds (session_action c (body c))
                  (note (ParseTemplate (body c)
                           (reply_err (template_Parse (body c))));;
                   t ← check (template_Parse (body c));
                   publish_loop fuel cfg c2 nc t 1)) as Hrest.
        { apply adds_bind; [apply adds_note|intros _].
          { right. right. split; [done|]. left. by eexists. }
          apply adds_bind; [apply adds_check|intros t].
          eapply adds_weaken; [|apply loop_adds].
          intros a Ha. right. right. split; [done|]. right.
          subst c2. by case_decide. }
        destruct (Hrest st) as (evs & Heq & Hevs).
        by exists evs. }
  cut (∃ text evs,
         acts (session fuel cfg c nc st).2 = acts st ++ evs ∧
         Forall (session_action c text) evs).
  { intros (text & evs & H1 & H2). by exists text, evs. }
  unfold session. rewrite bind_eq.
  pose proof (read_payload_body c st) as Hbody.
  destruct (read_payload_adds c st) as (evs & Heq & Hevs).
  assert (∀ text, Forall (session_action c text) evs) as Hevs'.
  { intros text. eapply Forall_impl; [exact Hevs|]. intros a Ha. by left. }
  destruct (read_payload c st) as [[c'|e|] st1]; simpl in *;
    try by exists "", evs.
  destruct Hbody as [text ->]. exists text. unfold work.
  change (req (with_body c text)) with (req c).
  destruct (req c) eqn:Hreq.
  - destruct (doReq_adds cfg (with_body c text) nc st1) as (evs' & Heq' & Hevs'').
    exists (evs ++ evs'). rewrite Heq', Heq, app_assoc. split; [done|].
    apply Forall_app. split; [done|].
    eapply Forall_impl; [exact Hevs''|]. intros a Ha. right. left. by destruct a.
  - set (c2 := if decide (cnt (with_body c text) < 1)%Z
               then with_cnt (with_body c text) 1 else with_body c text).
    assert (adds (session_action c text)
              (note (ParseTemplate (body (with_body c text))
                       (reply_err (template_Parse (body (with_body c text)))));;
               t ← check (template_Parse (body (with_body c text)));
               publish_loop fuel cfg c2 nc t 1)) as Hrest.
    { apply adds_bind; [apply adds_note|intros _].
      { right. right. split; [done|]. left. by eexists. }
      apply adds_bind; [apply adds_check|intros t].
      eapply adds_weaken; [|apply loop_adds].
      intros a Ha. right. right. split; [done|]. right.
      subst c2. by case_decide. }
    destruct (Hrest st1) as (evs' & Heq' & Hevs'').
    exists (evs ++ evs'). rewrite Heq', Heq, app_assoc. split; [done|].
    by apply Forall_app.
Qed.

End Parts.

(** ** Errors stop the commands *)

Section Stopping.

Import pub.

Context {W Conn Tmpl Instant : Type} {B : Messaging W Conn Tmpl Instant}.

Implicit Types (st : run_state W) (c : pubCmd) (cfg : Config) (nc : Conn)
  (t : Tmpl).









(** What a run is made of: the connection, the session, the closing. *)
Lemma publish_run_eq fuel cfg c w :
  pub.run fuel cfg c w =
  match newNatsConn w with
  | (inl e, w1) =>
      (Fail (Returned e), {| wld := w1; acts := [Connect (Some e)] |})
  | (inr nc, w1) =>
      match session fuel cfg c nc {| wld := w1; acts := [Connect None] |} with
      | (Spent, st) => (Spent, st)
      | (Done a, st) =>
          (Done a, {| wld := Conn_Close nc (wld st); acts := acts st ++ [Close] |})
      | (Fail e, st) =>
          (Fail e, {| wld := Conn_Close nc (wld st); acts := acts st ++ [Close] |})
      end
  end.
Proof.
  unfold pub.run, publish, mbind, P_bind, call, check, defer, close; simpl.
  destruct (newNatsConn w) as [[e|nc] w1]; simpl; [done|].
  by destruct (session _ _ _ _ _) as [[a|e|] st].
Qed.

Lemma session_no_close fuel cfg c nc st :
  ∃ evs, acts (session fuel cfg c nc st).2 = acts st ++ evs ∧
         Forall (λ a, is_close a = false) evs.
Proof.
  destruct (session_adds fuel cfg c nc st) as (text & evs & _ & Heq & Hevs).
  exists evs. split; [done|]. eapply Forall_impl; [exact Hevs|].
  intros a [Ha|[[_ Ha]|[_ [[err Ha]|Ha]]]]; by destruct a.
Qed.

(** X1. The connection is closed once, at the very end, on every path
    that returns: when connecting fails nothing else is done and nothing
    is closed; when it succeeds, everything the command does lies between
    the connection and its closing, and a command that has not returned
    has not closed. *)
Theorem connection_is_closed_once fuel cfg c w :
  match newNatsConn w with
  | (inl e, w1) =>
      pub.run fuel cfg c w =
        (Fail (Returned e), {| wld := w1; acts := [Connect (Some e)] |})
  | (inr nc, w1) =>
      ∃ mid,
        Forall (λ a, is_close a = false) mid ∧
        acts (pub.run fuel cfg c w).2 =
          Connect None :: mid ++
          match (pub.run fuel cfg c w).1 with
          | Spent => []
          | _ => [Close]
          end
  end.
Proof.
  rewrite publish_run_eq.
  destruct (newNatsConn w) as [[e|nc] w1]; [done|].
  destruct (session_no_close fuel cfg c nc
              {| wld := w1; acts := [Connect None] |}) as (mid & Heq & Hmid).
  exists mid. split; [done|].
  destruct (session _ _ _ _ _) as [[a|e|] st]; simpl in *; rewrite Heq;
    by rewrite ?app_nil_r.
Qed.


End Stopping.

(** ** How many messages are published *)

Section Counting.

Import pub.

Context {W Conn Tmpl Instant : Type} {B : Messaging W Conn Tmpl Instant}.

Implicit Types (st : run_state W) (c : pubCmd) (cfg : Config) (nc : Conn)
  (t : Tmpl) (i : Z).

Lemma numbers_app (l1 l2 : list action) :
  numbers (l1 ++ l2) = numbers l1 ++ numbers l2.
Proof.
  induction l1 as [|a l1 IH]; [done|]. destruct a; simpl; by rewrite ?IH.
Qed.

Lemma published_app (l1 l2 : list action) :
  published (l1 ++ l2) = published l1 ++ published l2.
Proof.
  induction l1 as [|a l1 IH]; [done|]. destruct a; simpl; by rewrite ?IH.
Qed.

(** An [int] that stays in range is not changed by its arithmetic. *)
Lemma wrap_id (a : arch) (z : Z) :
  (MinInt a ≤ z ≤ MaxInt a)%Z → wrap a z = z.
Proof.
  unfold wrap, MinInt, MaxInt. destruct a; simpl bits; intros Hz.
  - change (2 ^ (32 - 1))%Z with 2147483648%Z in *.
    change (2 ^ 32)%Z with 4294967296%Z. rewrite Z.mod_small; lia.
  - change (2 ^ (64 - 1))%Z with 9223372036854775808%Z in *.
    change (2 ^ 64)%Z with 18446744073709551616%Z. rewrite Z.mod_small; lia.
Qed.

Lemma wrap_range (a : arch) (z : Z) : (MinInt a ≤ wrap a z ≤ MaxInt a)%Z.
Proof.
  unfold wrap, MinInt, MaxInt. destruct a; simpl bits.
  - change (2 ^ (32 - 1))%Z with 2147483648%Z.
    change (2 ^ 32)%Z with 4294967296%Z.
    pose proof (Z.mod_pos_bound (z + 2147483648) 4294967296). lia.
  - change (2 ^ (64 - 1))%Z with 9223372036854775808%Z.
    change (2 ^ 64)%Z with 18446744073709551616%Z.
    pose proof (Z.mod_pos_bound (z + 9223372036854775808) 18446744073709551616).
    lia.
Qed.

Lemma MaxInt_pos (a : arch) : (1 < MaxInt a)%Z.
Proof. by destruct a. Qed.

Lemma MinInt_neg (a : arch) : (MinInt a < 0)%Z.
Proof. by destruct a. Qed.

(** One turn executes the template on its number, hands at most one
    message to the bus, exactly one when it succeeds, and returns. *)
Lemma turn_counts c nc t i st :
  (turn c nc t i st).1 ≠ Spent ∧
  numbers (acts (turn c nc t i st).2) = numbers (acts st) ++ [i] ∧
(length (published (acts (turn c nc t i st).2))
    ≤ S (length (published (acts st))))%nat ∧
  ((turn c nc t i st).1 = Done tt →
   length (published (acts (turn c nc t i st).2))
     = S (length (published (acts st)))).
Proof.
  unfold turn, mbind, P_bind, quietly, note, call, check, guard, did; simpl.
  destruct (time_Now (wld st)) as [now w1]; simpl.
  destruct (template_Execute t _) as [e|text]; simpl.
  { rewrite numbers_app, published_app, app_nil_r; simpl.
    repeat split; try done; lia. }
  destruct (prepareMsg c text) as [msg [e|]]; simpl.
  { rewrite numbers_app, published_app, app_nil_r; simpl.
    repeat split; try done; lia. }
  destruct (Conn_PublishMsg nc msg w1) as [[e|] w2]; simpl.
  { rewrite !numbers_app, !published_app, !length_app; simpl.
    rewrite app_nil_r. repeat split; try done; lia. }
  destruct (Conn_Flush nc w2) as [ferr w3]; simpl.
  destruct (Conn_LastError nc w3) as [[e|] w4]; simpl;
    rewrite !numbers_app, !published_app, !length_app; simpl;
    rewrite !app_nil_r; repeat split; try done; simpl; lia.
Qed.

(** The loop from [i] on, for a count below the largest [int]. *)
Lemma loop_counts fuel cfg c nc t :
  (cnt c < MaxInt (IntSize cfg))%Z →
  ∀ i st, (1 ≤ i)%Z →
    ∃ k : nat,
      (Z.of_nat k ≤ Z.max 0 (cnt c - i + 1))%Z ∧
      numbers (acts (publish_loop fuel cfg c nc t i st).2)
        = numbers (acts st) ++ seqZ i (Z.of_nat k) ∧
      (length (published (acts (publish_loop fuel cfg c nc t i st).2))
        ≤ length (published (acts st)) + k)%nat ∧
      ((publish_loop fuel cfg c nc t i st).1 = Done tt →
       Z.of_nat k = Z.max 0 (cnt c - i + 1) ∧
       length (published (acts (publish_loop fuel cfg c nc t i st).2))
         = length (published (acts st)) + k) ∧
      ((Z.to_nat (cnt c - i + 1) ≤ fuel)%nat →
       (publish_loop fuel cfg c nc t i st).1 ≠ Spent).
Proof.
  intros Hcnt. induction fuel as [|fuel IH]; intros i st Hi; simpl.
  - destruct (Z.leb_spec i (cnt c)); simpl.
    + exists 0%nat. rewrite seqZ_nil by lia. rewrite app_nil_r.
      repeat split; try done; lia.
    + exists 0%nat. rewrite seqZ_nil by lia. rewrite app_nil_r.
      repeat split; try done; lia.
  - destruct (Z.leb_spec i (cnt c)); simpl.
    2:{ exists 0%nat. rewrite seqZ_nil by lia. rewrite app_nil_r.
        repeat split; try done; lia. }
    rewrite bind_eq.
    destruct (turn_counts c nc t i st) as (Hspent & Hnum & Hle & Heq).
    pose proof (MinInt_neg (IntSize cfg)) as Hmin.
    rewrite wrap_id by lia.
    destruct (turn c nc t i st) as [[[]|e|] st1]; simpl in *; [| |done].
    + destruct (IH (i + 1)%Z st1) as (k & Hk & Hnum' & Hle' & Hdone & Hfuel);
        [lia|].
      exists (S k). rewrite Hnum', Hnum, <- app_assoc.
      rewrite (seqZ_cons i) by lia.
      replace (Z.pred (Z.of_nat (S k))) with (Z.of_nat k) by lia.
      replace (Z.succ i) with (i + 1)%Z by lia.
      specialize (Heq eq_refl).
      split; [lia|]. split; [done|]. split; [lia|]. split.
      * intros Hd. destruct (Hdone Hd). lia.
      * intros Hf. apply Hfuel. lia.
    + exists 1%nat. rewrite Hnum.
      split; [lia|]. split; [done|]. split; [lia|]. by split.
Qed.

(** The loop for the largest count: [i] never gets past it. *)
Lemma loop_never_done fuel cfg c nc t :
  cnt c = MaxInt (IntSize cfg) →
  ∀ i st, (MinInt (IntSize cfg) ≤ i ≤ MaxInt (IntSize cfg))%Z →
    (publish_loop fuel cfg c nc t i st).1 ≠ Done tt.
Proof.
  intros Hcnt. induction fuel as [|fuel IH]; intros i st Hi; simpl;
    destruct (Z.leb_spec i (cnt c)); try lia; [done|].
  rewrite bind_eq.
  pose proof (wrap_range (IntSize cfg) (i + 1)) as Hwrap.
  destruct (turn c nc t i st) as [[[]|e|] st1]; simpl; [|done..].
  by apply IH.
Qed.

Lemma payload_counts (evs : list action) :
  Forall payload_action evs → numbers evs = [] ∧ published evs = [].
Proof.
  induction 1 as [|a evs Ha _ [IH1 IH2]]; [done|]. by destruct a.
Qed.

Lemma request_counts c (evs : list action) :
  Forall (request_action c) evs → numbers evs = [] ∧ published evs = [].
Proof.
  induction 1 as [|a evs Ha _ [IH1 IH2]]; [done|]. by destruct a.
Qed.

(** What a session publishes. *)
Lemma session_counts fuel cfg c nc st :
  (cnt c < MaxInt (IntSize cfg))%Z →
  ∃ k : nat,
    (Z.of_nat k ≤ asked c)%Z ∧
    numbers (acts (session fuel cfg c nc st).2)
      = numbers (acts st) ++ seqZ 1 (Z.of_nat k) ∧
    (length (published (acts (session fuel cfg c nc st).2))
      ≤ length (published (acts st)) + k)%nat ∧
    (req c = false → (session fuel cfg c nc st).1 = Done tt →
     Z.of_nat k = asked c ∧
     length (published (acts (session fuel cfg c nc st).2))
       = length (published (acts st)) + k) ∧
    ((Z.to_nat (asked c) ≤ fuel)%nat → (session fuel cfg c nc st).1 ≠ Spent).
Proof.
  intros Hcnt. unfold session, asked. rewrite bind_eq.
  pose proof (read_payload_body c st) as Hbody.
  pose proof (read_payload_returns c st) as Hret.
  destruct (read_payload_adds c st) as (evs & Heq & Hevs).
  apply payload_counts in Hevs as [Hnum Hpub].
  assert (numbers (acts (read_payload c st).2) = numbers (acts st) ∧
          published (acts (read_payload c st).2) = published (acts st))
    as [Hnum1 Hpub1].
  { by rewrite Heq, numbers_app, published_app, Hnum, Hpub, !app_nil_r. }
  destruct (read_payload c st) as [[c'|e|] st1]; simpl in *; [| |done].
  2:{ exists 0%nat. rewrite Hnum1, Hpub1, ?seqZ_nil, ?app_nil_r by lia.
      split; [lia|]. split; [done|]. split; [lia|]. by split. }
  destruct Hbody as [text ->]. unfold work.
  change (req (with_body c text)) with (req c).
  destruct (req c) eqn:Hreq.
  - destruct (doReq_adds cfg (with_body c text) nc st1) as (evs' & Heq' & Hevs').
    apply request_counts in Hevs' as [Hnum' Hpub'].
    exists 0%nat.
    rewrite Heq', numbers_app, published_app, Hnum', Hpub', !app_nil_r.
    rewrite Hnum1, Hpub1, ?seqZ_nil, ?app_nil_r by lia.
    split; [lia|]. split; [done|]. split; [lia|]. split; [done|].
    intros _. apply doReq_returns.
  - cbv zeta. change (body (with_body c text)) with text.
    change (cnt (with_body c text)) with (cnt c).
    rewrite bind_eq; simpl.
    destruct (template_Parse text) as [e|t]; simpl.
    { exists 0%nat. rewrite numbers_app, published_app, !app_nil_r.
      rewrite Hnum1, Hpub1, ?seqZ_nil, ?app_nil_r by lia.
      split; [lia|]. split; [done|]. split; [lia|]. by split. }
    set (c2 := if decide (cnt c < 1)%Z
               then with_cnt (with_body c text) 1 else with_body c text).
    set (st2 := did (ParseTemplate text None) (wld st1) st1).
    assert (cnt c2 = Z.max 1 (cnt c)) as Hc2.
    { subst c2. case_decide; simpl; lia. }
    assert (numbers (acts st2) = numbers (acts st) ∧
            published (acts st2) = published (acts st)) as [Hnum2 Hpub2].
    { subst st2; simpl.
      by rewrite numbers_app, published_app, !app_nil_r, Hnum1, Hpub1. }
    pose proof (MaxInt_pos (IntSize cfg)) as Hmax.
    destruct (loop_counts fuel cfg c2 nc t ltac:(lia) 1%Z st2 ltac:(lia))
      as (k & Hk & Hnumk & Hlek & Hdone & Hfuel).
    change ((mret t ≫= λ t0, publish_loop fuel cfg c2 nc t0 1) st2)
      with (publish_loop fuel cfg c2 nc t 1 st2).
    exists k. rewrite Hnumk, Hnum2. rewrite Hpub2 in Hlek, Hdone.
    rewrite Hc2 in Hk, Hdone, Hfuel.
    split; [lia|]. split; [done|]. split; [done|]. split.
    + intros _ Hd. destruct (Hdone Hd). split; [lia|done].
    + intros Hf. apply Hfuel. lia.
Qed.

(** With the largest count a publishing session does not succeed. *)
Lemma session_never_done fuel cfg c nc st :
  req c = false → cnt c = MaxInt (IntSize cfg) →
  (session fuel cfg c nc st).1 ≠ Done tt.
Proof.
  intros Hreq Hcnt. unfold session. rewrite bind_eq.
  pose proof (read_payload_body c st) as Hbody.
  destruct (read_payload c st) as [[c'|e|] st1]; simpl in *; [|done..].
  destruct Hbody as [text ->]. unfold work.
  change (req (with_body c text)) with (req c). rewrite Hreq.
  cbv zeta. rewrite bind_eq; simpl.
  destruct (template_Parse _) as [e|t]; simpl; [done|].
  change (cnt (with_body c text)) with (cnt c).
  pose proof (MaxInt_pos (IntSize cfg)) as Hmax.
  pose proof (MinInt_neg (IntSize cfg)) as Hmin.
  rewrite decide_False by lia.
  change ((mret t ≫= λ t0, publish_loop fuel cfg (with_body c text) nc t0 1)
            {| wld := wld st1;
               acts := acts st1 ++ [ParseTemplate text None] |})
    with (publish_loop fuel cfg (with_body c text) nc t 1
            {| wld := wld st1;
               acts := acts st1 ++ [ParseTemplate text None] |}).
  apply loop_never_done; [done|lia].
Qed.

(** X3. A publishing run that succeeds has published every message it
    was asked for, one for each number from 1 to the count, in that
    order; a count below one counts as one. *)
Theorem every_message_is_published fuel cfg c w :
  req c = false →
  (cnt c ≤ MaxInt (IntSize cfg))%Z →
  (pub.run fuel cfg c w).1 = Done tt →
  numbers (acts (pub.run fuel cfg c w).2) = seqZ 1 (asked c) ∧
  Z.of_nat (length (published (acts (pub.run fuel cfg c w).2))) = asked c.
Proof.
  intros Hreq Hcnt. rewrite publish_run_eq.
  destruct (newNatsConn w) as [[e|nc] w1]; [done|].
  destruct (decide (cnt c = MaxInt (IntSize cfg))) as [Hmax|Hmax].
  { pose proof (session_never_done fuel cfg c nc
                  {| wld := w1; acts := [Connect None] |} Hreq Hmax) as Hnever.
    by destruct (session _ _ _ _ _) as [[[]|e|] st]. }
  destruct (session_counts fuel cfg c nc {| wld := w1; acts := [Connect None] |})
    as (k & Hk & Hnum & Hle & Hdone & _); [lia|].
  destruct (session _ _ _ _ _) as [[[]|e|] st]; simpl in *; try done.
  intros _. destruct (Hdone Hreq eq_refl) as [Hk' Hlen].
  rewrite numbers_app, published_app, !app_nil_r, Hnum, Hlen, <- Hk'.
  split; [done|lia].
Qed.

(** X4. A run never publishes more than it was asked for: whatever the
    bus answers and however the run ends, the messages handed to the bus
    are at most the count (one, for a count below one), and the numbers
    the template was executed on are 1, 2, 3 and so on without a gap. *)
Theorem never_publishes_more_than_asked fuel cfg c w :
  (cnt c < MaxInt (IntSize cfg))%Z →
  ∃ k : nat,
    (Z.of_nat k ≤ asked c)%Z ∧
    numbers (acts (pub.run fuel cfg c w).2) = seqZ 1 (Z.of_nat k) ∧
    (length (published (acts (pub.run fuel cfg c w).2)) ≤ k)%nat.
Proof.
  intros Hcnt. rewrite publish_run_eq. unfold asked.
  destruct (newNatsConn w) as [[e|nc] w1].
  { exists 0%nat. simpl. split; [lia|]. split; [done|lia]. }
  destruct (session_counts fuel cfg c nc {| wld := w1; acts := [Connect None] |})
    as (k & Hk & Hnum & Hle & _); [done|].
  exists k. split; [done|].
  destruct (session _ _ _ _ _) as [[[]|e|] st]; simpl in *;
    rewrite ?numbers_app, ?published_app, ?app_nil_r; by split.
Qed.

(** X5. The loop ends. For a count below the largest [int], fuel for as
    many turns as the count (one, for a count below one) is enough for
    the run to return, whatever the bus answers. *)
Theorem publish_returns fuel cfg c w :
  (cnt c < MaxInt (IntSize cfg))%Z →
  (Z.to_nat (asked c) ≤ fuel)%nat →
  (pub.run fuel cfg c w).1 ≠ Spent.
Proof.
  intros Hcnt Hfuel. rewrite publish_run_eq.
  destruct (newNatsConn w) as [[e|nc] w1]; [done|].
  destruct (session_counts fuel cfg c nc {| wld := w1; acts := [Connect None] |})
    as (k & _ & _ & _ & _ & Hret); [done|].
  specialize (Hret Hfuel).
  by destruct (session _ _ _ _ _) as [[[]|e|] st].
Qed.

(** X6. With the largest [int] as its count a publishing run never
    succeeds: the loop counter cannot get past the count, so the run goes
    on until a call fails, whatever the fuel. *)
Theorem largest_count_never_succeeds fuel cfg c w :
  req c = false →
  cnt c = MaxInt (IntSize cfg) →
  (pub.run fuel cfg c w).1 ≠ Done tt.
Proof.
  intros Hreq Hcnt. rewrite publish_run_eq.
  destruct (newNatsConn w) as [[e|nc] w1]; [done|].
  pose proof (session_never_done fuel cfg c nc
                {| wld := w1; acts := [Connect None] |} Hreq Hcnt) as Hnever.
  by destruct (session _ _ _ _ _) as [[[]|e|] st].
Qed.

End Counting.

(** ** Requests, payloads and what is logged *)

Section Modes.

Import pub.

Context {W Conn Tmpl Instant : Type} {B : Messaging W Conn Tmpl Instant}.

Implicit Types (st : run_state W) (c : pubCmd) (cfg : Config) (nc : Conn)
  (t : Tmpl).

(** A request does not look at the count, nor at the fuel. *)
Lemma session_request_eq fuel fuel' cfg c nc (n : Z) st :
  req c = true →
  session fuel' cfg (with_cnt c n) nc st = session fuel cfg c nc st.
Proof.
  intros Hreq. unfold session, read_payload, work; simpl.
  destruct (decide (body c = "!nil!")) as [Hnil|Hgiven];
    unfold mbind, P_bind, call, note, check, mret, P_ret; simpl.
  - destruct (IsTerminal (wld st)); simpl; [|by rewrite Hreq].
    destruct (ReadAll (wld st)) as [[e|text] w']; simpl; [done|].
    by rewrite Hreq.
  - by rewrite Hreq.
Qed.

Lemma session_returns_request fuel cfg c nc st :
  req c = true → (session fuel cfg c nc st).1 ≠ Spent.
Proof.
  intros Hreq. unfold session. rewrite bind_eq.
  pose proof (read_payload_body c st) as Hbody.
  pose proof (read_payload_returns c st) as Hret.
  destruct (read_payload c st) as [[c'|e|] st1]; simpl in *; [|done..].
  destruct Hbody as [text ->]. unfold work.
  change (req (with_body c text)) with (req c). rewrite Hreq.
  apply doReq_returns.
Qed.

(** X7. Requesting and publishing exclude each other. A command in
    request mode parses no template, executes none, publishes nothing and
    never runs the loop: it returns without fuel, and it is the same run
    whatever the count. A command in publish mode sends no request. *)
Theorem request_and_publish_exclude_each_other fuel cfg c w :
  (req c = true →
     Forall (λ a, is_publishing a = false) (acts (pub.run fuel cfg c w).2) ∧
     (pub.run fuel cfg c w).1 ≠ Spent ∧
     ∀ fuel' n, pub.run fuel' cfg (with_cnt c n) w = pub.run fuel cfg c w) ∧
  (req c = false →
     Forall (λ a, is_request a = false) (acts (pub.run fuel cfg c w).2)).
Proof.
  split; intros Hreq.
  - split; [|split].
    + rewrite publish_run_eq.
      destruct (newNatsConn w) as [[e|nc] w1]; [by repeat constructor|].
      destruct (session_adds fuel cfg c nc {| wld := w1; acts := [Connect None] |})
        as (text & evs & _ & Heq & Hevs).
      assert (Forall (λ a, is_publishing a = false) evs) as Hevs'.
      { eapply Forall_impl; [exact Hevs|].
        intros a [Ha|[[_ Ha]|[Hno _]]]; [by destruct a..|congruence]. }
      destruct (session _ _ _ _ _) as [[[]|e|] st]; simpl in *; rewrite Heq;
        repeat first [ done | constructor | apply Forall_app; split ].
    + rewrite publish_run_eq.
      destruct (newNatsConn w) as [[e|nc] w1]; [done|].
      pose proof (session_returns_request fuel cfg c nc
                    {| wld := w1; acts := [Connect None] |} Hreq).
      by destruct (session _ _ _ _ _) as [[[]|e|] st].
    + intros fuel' n. rewrite !publish_run_eq.
      destruct (newNatsConn w) as [[e|nc] w1]; [done|].
      by rewrite (session_request_eq fuel fuel').
  - rewrite publish_run_eq.
    destruct (newNatsConn w) as [[e|nc] w1]; [by repeat constructor|].
    destruct (session_adds fuel cfg c nc {| wld := w1; acts := [Connect None] |})
      as (text & evs & _ & Heq & Hevs).
    assert (Forall (λ a, is_request a = false) evs) as Hevs'.
    { eapply Forall_impl; [exact Hevs|].
      intros a [Ha|[[Hyes _]|[_ [[err Ha]|Ha]]]];
        [by destruct a|congruence|by subst|by destruct a]. }
    destruct (session _ _ _ _ _) as [[[]|e|] st]; simpl in *; rewrite Heq;
      repeat first [ done | constructor | apply Forall_app; split ].
Qed.






End Modes.

(** ** What a request prints and logs *)

Section Replies.

Import pub.

Context {W Conn Tmpl Instant : Type} {B : Messaging W Conn Tmpl Instant}.

Implicit Types (st : run_state W) (c : pubCmd) (cfg : Config) (nc : Conn)
  (m : Msg).

Lemma stdout_app (l1 l2 : list action) :
  stdout (l1 ++ l2) = stdout l1 +:+ stdout l2.
Proof.
  induction l1 as [|a l1 IH]; [done|].
  destruct a; simpl; try done. by rewrite IH, !string_app_assoc.
Qed.

Lemma header_lines_app (l1 l2 : list action) :
  header_lines (l1 ++ l2) = header_lines l1 ++ header_lines l2.
Proof.
  induction l1 as [|a l1 IH]; [done|].
  destruct a as [| | | |format args| | | | | | | |]; simpl; try done.
  destruct args as [|[h| |] [|[val| |] [|]]]; simpl; try done.
  case_decide; by rewrite IH.
Qed.

(** The log lines of a list of header entries. *)
Lemma header_lines_logged (l : list (string * string)) :
  header_lines ((λ p, Printf "%s: %s" [Str p.1; Str p.2]) <$> l) = l ∧
  stdout ((λ p, Printf "%s: %s" [Str p.1; Str p.2]) <$> l) = "".
Proof.
  induction l as [|[h val] l [IH1 IH2]]; [done|].
  split; [|exact IH2].
  cbn [fmap list_fmap header_lines fst snd].
  rewrite decide_True by done. by f_equal.
Qed.

Lemma log_values_eq (h : string) (vals : list string) st :
  log_values h vals st =
  (Done tt,
   {| wld := wld st;
      acts := acts st ++
              ((λ p, Printf "%s: %s" [Str p.1; Str p.2]) <$>
               ((λ val, (h, val)) <$> vals)) |}).
Proof.
  revert st. induction vals as [|val vals IH]; intros st; simpl.
  { rewrite app_nil_r. by destruct st. }
  rewrite bind_eq; simpl. rewrite IH; simpl. by rewrite <- app_assoc.
Qed.

Lemma log_headers_eq (kvs : list (string * list string)) st :
  log_headers kvs st =
  (Done tt,
   {| wld := wld st;
      acts := acts st ++
              ((λ p, Printf "%s: %s" [Str p.1; Str p.2]) <$> pairs kvs) |}).
Proof.
  revert st. induction kvs as [|[h vals] kvs IH]; intros st; simpl.
  { rewrite app_nil_r. by destruct st. }
  rewrite bind_eq, log_values_eq; simpl. rewrite IH; simpl.
  unfold pairs; simpl. by rewrite fmap_app, <- app_assoc.
Qed.

(** What a request that is not raw has done when it succeeds. *)
Lemma doReq_done cfg c nc st :
  raw c = false →
  (doReq cfg c nc st).1 = Done tt →
  ∃ m w' kvs rtt,
    Conn_RequestMsg nc (prepareMsg c (body c)).1 (timeout cfg)
      (time_Now (wld st)).2 = (inr m, w') ∧
    kvs ≡ₚ map_to_list (Header m) ∧
    acts (doReq cfg c nc st).2 =
      acts st ++
      [Printf "Sending request on %q\n" [Str (subject c)];
       Request (prepareMsg c (body c)).1 (timeout cfg) None;
       Printf "Received on %q rtt %v" [Str (Subject m); Dur rtt]] ++
      (if decide (0 < size (Header m))%nat
       then ((λ p, Printf "%s: %s" [Str p.1; Str p.2]) <$> pairs kvs)
            ++ [Println ""]
       else []) ++
      [Println (Data m)] ++
      (if HasSuffix (Data m) newline then [] else [Println ""]).
Proof.
  intros Hraw. unfold doReq. rewrite Hraw.
  repeat progress (rewrite ?bind_eq, ?call_eq, ?quietly_eq; simpl).
  destruct (prepareMsg c (body c)) as [msg [e|]]; simpl; [done|].
  repeat progress (rewrite ?bind_eq, ?call_eq, ?quietly_eq; simpl).
  destruct (Conn_RequestMsg nc msg (timeout cfg) (time_Now (wld st)).2)
    as [[e|m] w2] eqn:Hreq; simpl; [done|].
  repeat progress (rewrite ?bind_eq, ?call_eq, ?quietly_eq; simpl).
  set (rtt := (time_Since (time_Now (wld st)).1 w2).1).
  set (w3 := (time_Since (time_Now (wld st)).1 w2).2).
  destruct (decide (0 < size (Header m))%nat) as [Hsize|Hsize].
  - repeat progress (rewrite ?bind_eq, ?call_eq, ?quietly_eq; simpl).
    rewrite log_headers_eq; simpl.
    pose proof (range_Header_perm (Header m) w3) as Hperm.
    intros _. exists m, w2, (range_Header (Header m) w3).1, rtt.
    split; [done|]. split; [done|]. rewrite decide_True by done.
    destruct (HasSuffix (Data m) newline); simpl;
      rewrite <- ?app_assoc; simpl; by rewrite <- ?app_assoc.
  - simpl. intros _. exists m, w2, (map_to_list (Header m)), rtt.
    split; [done|]. split; [done|]. rewrite decide_False by done.
    destruct (HasSuffix (Data m) newline); simpl;
      rewrite <- ?app_assoc; simpl; by rewrite <- ?app_assoc.
Qed.

(** X9. A raw request logs nothing; when it succeeds, standard output
    holds the data of the reply and a line feed, and nothing else; when
    it fails, nothing was printed. *)
Theorem raw_request_prints_the_reply_only cfg c nc st :
  raw c = true →
  ∃ evs,
    acts (doReq cfg c nc st).2 = acts st ++ evs ∧
    Forall (λ a, is_log a = false) evs ∧
    match (doReq cfg c nc st).1 with
    | Done _ =>
        ∃ m w',
          Conn_RequestMsg nc (prepareMsg c (body c)).1 (timeout cfg)
            (time_Now (wld st)).2 = (inr m, w') ∧
          stdout evs = Data m +:+ newline
    | _ => stdout evs = ""
    end.
Proof.
  intros Hraw. unfold doReq. rewrite Hraw.
  repeat progress (rewrite ?bind_eq, ?call_eq, ?quietly_eq; simpl).
  destruct (prepareMsg c (body c)) as [msg [e|]]; simpl.
  { exists []. by rewrite app_nil_r. }
  repeat progress (rewrite ?bind_eq, ?call_eq, ?quietly_eq; simpl).
  destruct (Conn_RequestMsg nc msg (timeout cfg) (time_Now (wld st)).2)
    as [[e|m] w2] eqn:Hreq; simpl.
  { eexists. split; [done|]. split; [by repeat constructor|done]. }
  eexists. split; [by rewrite <- app_assoc|].
  split; [by repeat constructor|]. by exists m, w2.
Qed.

(** X10. A request that is not raw ends its output with an empty line:
    after the data of the reply comes a line feed, and one more when the
    data does not end in one; an empty line comes first when the reply
    has headers. *)
Theorem reply_is_followed_by_an_empty_line cfg c nc st :
  raw c = false →
  (doReq cfg c nc st).1 = Done tt →
  ∃ m w' evs,
    Conn_RequestMsg nc (prepareMsg c (body c)).1 (timeout cfg)
      (time_Now (wld st)).2 = (inr m, w') ∧
    acts (doReq cfg c nc st).2 = acts st ++ evs ∧
    stdout evs =
      (if decide (0 < size (Header m))%nat then newline else "") +:+
      Data m +:+ newline +:+
      (if HasSuffix (Data m) newline then "" else newline) ∧
    ∃ front, stdout evs = front +:+ newline +:+ newline.
Proof.
  intros Hraw Hdone.
  destruct (doReq_done cfg c nc st Hraw Hdone)
    as (m & w' & kvs & rtt & Hreq & _ & Hacts).
  exists m, w'. eexists. split; [done|]. split; [exact Hacts|].
  assert (stdout
            ([Printf "Sending request on %q\n" [Str (subject c)];
              Request (prepareMsg c (body c)).1 (timeout cfg) None;
              Printf "Received on %q rtt %v" [Str (Subject m); Dur rtt]] ++
             (if decide (0 < size (Header m))%nat
              then ((λ p, Printf "%s: %s" [Str p.1; Str p.2]) <$> pairs kvs)
                   ++ [Println ""]
              else []) ++
             [Println (Data m)] ++
             (if HasSuffix (Data m) newline then [] else [Println ""])) =
          (if decide (0 < size (Header m))%nat then newline else "") +:+
          Data m +:+ newline +:+
          (if HasSuffix (Data m) newline then "" else newline)) as Hout.
  { simpl. rewrite stdout_app.
    assert (stdout (if decide (0 < size (Header m))%nat
                    then ((λ p, Printf "%s: %s" [Str p.1; Str p.2]) <$> pairs kvs)
                         ++ [Println ""]
                    else []) =
            if decide (0 < size (Header m))%nat then newline else "") as ->.
    { case_decide; [|done]. rewrite stdout_app.
      by rewrite (proj2 (header_lines_logged _)). }
    f_equal. simpl. by destruct (HasSuffix (Data m) newline). }
  split; [exact Hout|]. rewrite Hout.
  destruct (HasSuffix (Data m) newline) eqn:Hsuffix.
  - apply HasSuffix_inv in Hsuffix as [front Hfront].
    exists ((if decide (0 < size (Header m))%nat then newline else "") +:+ front).
    rewrite Hfront, !string_app_assoc. by rewrite string_app_empty_r.
  - exists ((if decide (0 < size (Header m))%nat then newline else "") +:+ Data m).
    by rewrite !string_app_assoc.
Qed.

(** X11. A request that is not raw logs every header value of the reply
    once: the header lines logged are the entries of the header of the
    reply, one line for each value, in the order the runtime ranges over
    the header. *)
Theorem every_header_value_is_logged_once cfg c nc st :
  raw c = false →
  (doReq cfg c nc st).1 = Done tt →
  ∃ m w' evs,
    Conn_RequestMsg nc (prepareMsg c (body c)).1 (timeout cfg)
      (time_Now (wld st)).2 = (inr m, w') ∧
    acts (doReq cfg c nc st).2 = acts st ++ evs ∧
    header_lines evs ≡ₚ pairs (map_to_list (Header m)).
Proof.
  intros Hraw Hdone.
  destruct (doReq_done cfg c nc st Hraw Hdone)
    as (m & w' & kvs & rtt & Hreq & Hperm & Hacts).
  exists m, w'. eexists. split; [done|]. split; [exact Hacts|].
  change (header_lines
            ((if decide (0 < size (Header m))%nat
              then ((λ p, Printf "%s: %s" [Str p.1; Str p.2]) <$> pairs kvs)
                   ++ [Println ""]
              else []) ++
             [Println (Data m)] ++
             (if HasSuffix (Data m) newline then [] else [Println ""]))
          ≡ₚ pairs (map_to_list (Header m))).
  rewrite header_lines_app.
  assert (header_lines ([Println (Data m)] ++
            (if HasSuffix (Data m) newline then [] else [Println ""])) = [])
    as -> by (by destruct (HasSuffix (Data m) newline)).
  rewrite app_nil_r. case_decide as Hsize.
  - rewrite header_lines_app, (proj1 (header_lines_logged _)); simpl.
    rewrite app_nil_r. unfold pairs. by rewrite Hperm.
  - assert (Header m = ∅) as ->.
    { apply map_size_empty_inv. lia. }
    by rewrite map_to_list_empty.
Qed.

End Replies.

(** ** What the log says, and what is not listened to *)

Section Logs.

Import pub.

Context {W Conn Tmpl Instant : Type} {B : Messaging W Conn Tmpl Instant}.

Implicit Types (st : run_state W) (c : pubCmd) (cfg : Config) (nc : Conn)
  (t : Tmpl).

(** Every action of a run: the connection, its closing, and between
    them what a session does. *)
Lemma run_actions fuel cfg c w :
  ∃ text,
    (body c ≠ "!nil!" → text = body c) ∧
    ∀ a, a ∈ acts (pub.run fuel cfg c w).2 →
         (∃ err, a = Connect err) ∨ a = Close ∨ session_action c text a.
Proof.
  rewrite publish_run_eq.
  destruct (newNatsConn w) as [[e|nc] w1].
  { exists (body c). split; [done|]. intros a Hin.
    apply list_elem_of_singleton in Hin as ->. left. by eexists. }
  destruct (session_adds fuel cfg c nc {| wld := w1; acts := [Connect None] |})
    as (text & evs & Htext & Heq & Hevs).
  exists text. split; [done|]. rewrite Forall_forall in Hevs.
  intros a Hin.
  assert (a = Connect None ∨ a ∈ evs ∨ a = Close) as Hin'.
  { destruct (session _ _ _ _ _) as [[[]|e|] st]; simpl in *;
      rewrite Heq in Hin; simpl in Hin;
      rewrite elem_of_cons, ?elem_of_app, ?list_elem_of_singleton in Hin;
      tauto. }
  destruct Hin' as [->|[Hin'| ->]]; eauto.
Qed.

(** X12. The log line of a published message reports the length of the
    body of the command, the text of the template, and not the length of
    the message that was published: every such line of a run carries the
    same number, the length of the one text the run parsed as its
    template, which is the body given on the command line when there is
    one. *)
Theorem published_line_reports_the_body_length fuel cfg c w :
  ∃ text,
    (body c ≠ "!nil!" → text = body c) ∧
    (∀ text' err,
       ParseTemplate text' err ∈ acts (pub.run fuel cfg c w).2 → text' = text) ∧
    (∀ a, a ∈ acts (pub.run fuel cfg c w).2 →
          is_published_line a = true →
          a = Printf "Published %d bytes to %q\n"
                [Int (Z.of_nat (String.length text)); Str (subject c)]).
Proof.
  destruct (run_actions fuel cfg c w) as (text & Htext & Hall).
  exists text. split; [done|]. split.
  - intros text' err Hin.
    destruct (Hall _ Hin) as [[? ?]|[?|[?|[[_ ?]|[_ [[? ?]|?]]]]]];
      by simplify_eq.
  - intros a Hin Hline.
    destruct (Hall _ Hin) as [[? ->]|[->|[Ha|[[_ Ha]|[_ [[? ->]|Ha]]]]]];
      try done.
    + by destruct a.
    + destruct a; try done. destruct Ha as [_ Ha]. congruence.
    + destruct a; try done. by destruct Ha as [-> ->].
Qed.

(** One turn does the same whether [Flush] reports an error or not. *)
Lemma turn_silent_flush c nc t (i : Z) st :
  turn (B := silent_flush B) c nc t i st = turn (B := B) c nc t i st.
Proof.
  unfold turn, prepareMsg.
  repeat progress (rewrite ?bind_eq, ?call_eq, ?quietly_eq; simpl).
  destruct (template_Execute t _) as [e|text]; simpl; [done|].
  destruct (parseStringsToHeader _ _) as [[e|] msg]; simpl; [done|].
  repeat progress (rewrite ?bind_eq, ?call_eq, ?quietly_eq; simpl).
  destruct (Conn_PublishMsg nc msg _) as [[e|] w2]; simpl; [done|].
  repeat progress (rewrite ?bind_eq, ?call_eq, ?quietly_eq; simpl).
  done.
Qed.

Lemma loop_silent_flush fuel cfg c nc t (i : Z) st :
  publish_loop (B := silent_flush B) fuel cfg c nc t i st
  = publish_loop (B := B) fuel cfg c nc t i st.
Proof.
  revert i st. induction fuel as [|fuel IH]; intros i st; simpl;
    destruct (i <=? cnt c)%Z; try done.
  rewrite !bind_eq, turn_silent_flush.
  destruct (turn c nc t i st) as [[[]|e|] st1]; by rewrite ?IH.
Qed.

(** X13. An error of [Flush] is not listened to: a run is the same run,
    with the same outcome, the same world and the same actions, when
    every [Flush] reports success instead of what it reported. *)
Theorem flush_errors_are_ignored fuel cfg c w :
  pub.run (B := silent_flush B) fuel cfg c w = pub.run (B := B) fuel cfg c w.
Proof.
  rewrite !publish_run_eq; simpl.
  destruct (newNatsConn w) as [[e|nc] w1]; [done|].
  assert (∀ st, session (B := silent_flush B) fuel cfg c nc st
                = session (B := B) fuel cfg c nc st) as ->; [|done].
  intros st. unfold session. rewrite !bind_eq.
  change (read_payload (B := silent_flush B) c st)
    with (read_payload (B := B) c st).
  destruct (read_payload c st) as [[c'|e|] st1]; [|done..].
  unfold work. destruct (req c'); [done|]. cbv zeta.
  rewrite !bind_eq; simpl.
  destruct (template_Parse (body c')) as [e|t]; simpl; [done|].
  apply loop_silent_flush.
Qed.

End Logs.

(** * More on [generateAction] *)

Section GenerateMore.

Context {W Auth : Type} {K : Collaborators W Auth}.

Implicit Types (opts : Options) (c : serverGenerateCmd) (w : W) (st : state W).

(** A store that is only read leaves the world as the validator found
    it. *)
Lemma validate_world (b : Bundle) st r st' :
  read_only → validate b st = (r, st') → world st' = world st.
Proof.
  intros (_ & _ & Hget & Hls). rewrite validate_eq. intros Heq.
  explore; rewrite ?Hls, ?Hget; auto.
Qed.

(** X14. A run that ends before the renderer changes nothing: when the
    resolver and the authority store only read, every failure before the
    call to the renderer, be it the target that exists, the source that
    cannot be parsed, fetched or read, the store that is out of reach or
    the operator that is missing, leaves the world as it was. *)
Theorem failure_before_rendering_changes_nothing opts c w :
  read_only →
  Forall (λ ev, is_render ev = false) (calls (run opts c w).2) →
  world (run opts c w).2 = w.
Proof.
  intros Hro. rewrite run_eq.
  destruct (FileExists (target c) w); [done|].
  destruct (resolve c (checked c w)) as [[b|e] st1] eqn:Hres;
    pose proof (resolve_world _ _ _ _ Hro Hres) as Hw1; [|done].
  destruct (validate b st1) as [[[]|e] st2] eqn:Hval;
    pose proof (validate_world _ _ _ _ Hro Hval) as Hw2;
    [|intros _; simpl in *; congruence].
  rewrite render_calls. intros Hno.
  apply Forall_app in Hno as [_ Hno].
  apply Forall_inv in Hno. by vm_compute in Hno.
Qed.

(** X15. The renderer has the last word: once the target was found
    absent, the bundle resolved and the requirements passed, the run
    returns what the renderer returns and leaves the world as the
    renderer left it. After a failed rendering nothing is called to undo
    what was written. *)
Theorem renderer_has_the_last_word opts c w b st1 st2 :
  FileExists (target c) w = false →
  resolve c (checked c w) = (Ok b, st1) →
  validate b st1 = (Ok tt, st2) →
  run opts c w =
    (match (Bundle_Run b (target c) (build_env c) (Trace opts) (world st2)).1 with
     | Some e => Err (Returned e)
     | None => Ok tt
     end,
     {| world := (Bundle_Run b (target c) (build_env c) (Trace opts)
                    (world st2)).2;
        calls := calls st2 ++
          [ {| ev_call := CallRun b (target c) (build_env c) (Trace opts);
               ev_err := (Bundle_Run b (target c) (build_env c) (Trace opts)
                            (world st2)).1 |} ] |}).
Proof.
  intros Hex Hres Hval. rewrite run_eq, Hex, Hres, Hval, render_eq; simpl.
  by destruct (Bundle_Run b (target c) (build_env c) (Trace opts) (world st2)).1.
Qed.

(** X16. The trace option reaches the renderer and nothing else: two
    runs that differ in the option only make the same calls before the
    renderer, and are the same run when the renderer is not reached. *)
Theorem trace_option_only_reaches_the_renderer opts opts' c w :
  filter (λ ev, is_render ev = false) (calls (run opts c w).2)
    = filter (λ ev, is_render ev = false) (calls (run opts' c w).2) ∧
  (Forall (λ ev, is_render ev = false) (calls (run opts c w).2) →
   run opts' c w = run opts c w).
Proof.
  rewrite !run_eq.
  destruct (FileExists (target c) w); [done|].
  destruct (resolve c (checked c w)) as [[b|e] st1]; [|done].
  destruct (validate b st1) as [[[]|e] st2]; [|done].
  rewrite !render_calls. split.
  - by rewrite !filter_app.
  - intros Hno. apply Forall_app in Hno as [_ Hno].
    apply Forall_inv in Hno. by vm_compute in Hno.
Qed.

End GenerateMore.

(** * The commands at work on the sample bus *)

Section BusRuns.

Import pub bus.

(** The runs of the sample commands, computed. *)

Example greet_twice :
  (pub.run 2 amd64 (greet 2) (server 5)).1 = Done tt ∧
  Data <$> delivered (wld (pub.run 2 amd64 (greet 2) (server 5)).2)
    = ["hello 1"; "hello 2"] ∧
  closed (wld (pub.run 2 amd64 (greet 2) (server 5)).2) = true.
Proof. repeat split; vm_compute; reflexivity. Qed.

Example ping_prints_pong :
  stdout (acts (pub.run 0 amd64 (ping false) (server 0)).2)
    = newline +:+ "pong" +:+ newline +:+ newline ∧
  stdout (acts (pub.run 0 amd64 (ping true) (server 0)).2)
    = "pong" +:+ newline.
Proof. split; vm_compute; reflexivity. Qed.


Lemma every_message_is_published_witness :
  (pub.run 3 amd64 (greet 3) (server 5)).1 = Done tt ∧
  numbers (acts (pub.run 3 amd64 (greet 3) (server 5)).2) = [1; 2; 3]%Z ∧
  Z.of_nat (length (published (acts (pub.run 3 amd64 (greet 3) (server 5)).2)))
    = 3%Z.
Proof.
  assert ((pub.run 3 amd64 (greet 3) (server 5)).1 = Done tt) as Hdone
    by (vm_compute; reflexivity).
  split; [exact Hdone|].
  apply (every_message_is_published 3 amd64 (greet 3) (server 5) eq_refl);
    [vm_compute; discriminate|exact Hdone].
Defined.

Lemma never_publishes_more_than_asked_witness :
  ∃ k : nat,
    (Z.of_nat k ≤ 2)%Z ∧
    numbers (acts (pub.run 7 amd64 (greet 2) (server 1)).2)
      = seqZ 1 (Z.of_nat k) ∧
    (length (published (acts (pub.run 7 amd64 (greet 2) (server 1)).2)) ≤ k)%nat.
Proof.
  apply (never_publishes_more_than_asked 7 amd64 (greet 2) (server 1)).
  vm_compute. reflexivity.
Defined.

Lemma publish_returns_witness :
  (pub.run 2 amd64 (greet 2) (server 1)).1 ≠ Spent.
Proof.
  apply (publish_returns 2 amd64 (greet 2) (server 1)).
  - vm_compute. reflexivity.
  - vm_compute. lia.
Defined.

Lemma largest_count_never_succeeds_witness :
  cnt (greet (MaxInt Arch64)) = MaxInt (IntSize amd64) ∧
  (pub.run 3 amd64 (greet (MaxInt Arch64)) (server 5)).1 ≠ Done tt.
Proof.
  split; [reflexivity|].
  apply (largest_count_never_succeeds 3 amd64 (greet (MaxInt Arch64)) (server 5));
    reflexivity.
Defined.

Lemma request_and_publish_exclude_each_other_witness :
  Forall (λ a, is_publishing a = false)
    (acts (pub.run 0 amd64 (ping false) (server 0)).2) ∧
  (pub.run 0 amd64 (ping false) (server 0)).1 ≠ Spent ∧
  Forall (λ a, is_request a = false)
    (acts (pub.run 2 amd64 (greet 2) (server 5)).2).
Proof.
  destruct (request_and_publish_exclude_each_other 0 amd64 (ping false) (server 0))
    as [Hreq _].
  destruct (Hreq eq_refl) as (Hno & Hret & _).
  destruct (request_and_publish_exclude_each_other 2 amd64 (greet 2) (server 5))
    as [_ Hpub].
  split; [exact Hno|]. split; [exact Hret|]. exact (Hpub eq_refl).
Defined.


Lemma raw_request_prints_the_reply_only_witness :
  ∃ evs,
    acts (doReq amd64 (ping true) tt {| wld := server 0; acts := [] |}).2
      = [] ++ evs ∧
    Forall (λ a, is_log a = false) evs ∧
    stdout evs = "pong" +:+ newline.
Proof.
  destruct (raw_request_prints_the_reply_only amd64 (ping true) tt
              {| wld := server 0; acts := [] |} eq_refl)
    as (evs & Heq & Hlog & Hout).
  exists evs. split; [exact Heq|]. split; [exact Hlog|].
  destruct Hout as (m & w' & Hreq & Hout).
  injection Hreq as <- _. exact Hout.
Defined.

Lemma reply_is_followed_by_an_empty_line_witness :
  (doReq amd64 (ping false) tt {| wld := server 0; acts := [] |}).1 = Done tt ∧
  ∃ evs front,
    acts (doReq amd64 (ping false) tt {| wld := server 0; acts := [] |}).2
      = [] ++ evs ∧
    stdout evs = front +:+ newline +:+ newline.
Proof.
  assert ((doReq amd64 (ping false) tt {| wld := server 0; acts := [] |}).1
            = Done tt) as Hdone by (vm_compute; reflexivity).
  split; [exact Hdone|].
  destruct (reply_is_followed_by_an_empty_line amd64 (ping false) tt
              {| wld := server 0; acts := [] |} eq_refl Hdone)
    as (m & w' & evs & _ & Heq & _ & front & Hout).
  exists evs, front. split; [exact Heq|exact Hout].
Defined.

Lemma every_header_value_is_logged_once_witness :
  (doReq amd64 (ping false) tt {| wld := server 0; acts := [] |}).1 = Done tt ∧
  ∃ evs,
    acts (doReq amd64 (ping false) tt {| wld := server 0; acts := [] |}).2
      = [] ++ evs ∧
    header_lines evs ≡ₚ pairs (map_to_list (Header pong)).
Proof.
  assert ((doReq amd64 (ping false) tt {| wld := server 0; acts := [] |}).1
            = Done tt) as Hdone by (vm_compute; reflexivity).
  split; [exact Hdone|].
  destruct (every_header_value_is_logged_once amd64 (ping false) tt
              {| wld := server 0; acts := [] |} eq_refl Hdone)
    as (m & w' & evs & Hreq & Heq & Hperm).
  exists evs. split; [exact Heq|].
  injection Hreq as <- _. exact Hperm.
Defined.

(** The log reports the 14 bytes of the template for messages of 7. *)
Example published_line_and_message_differ :
  published (acts (pub.run 1 amd64 (greet 1) (server 5)).2)
    = [ {| Subject := "greetings"; Reply := ""; Data := "hello 1";
           Header := {[ "Trace" := [" on"] ]} |} ] ∧
  filter (λ a, is_published_line a = true)
    (acts (pub.run 1 amd64 (greet 1) (server 5)).2)
    = [ Printf "Published %d bytes to %q\n" [Int 14; Str "greetings"] ].
Proof. split; vm_compute; reflexivity. Qed.

End BusRuns.

Section LaptopRuns.

Import scaffold sample.

Lemma failure_before_rendering_changes_nothing_witness :
  read_only (K := sample.collaborators) ∧
  Forall (λ ev, is_render ev = false)
    (calls (run quiet secured_from_file (laptop (Some []))).2) ∧
  world (run quiet secured_from_file (laptop (Some []))).2 = laptop (Some []).
Proof.
  assert (Forall (λ ev, is_render ev = false)
            (calls (run quiet secured_from_file (laptop (Some []))).2)) as Hno.
  { vm_compute. repeat constructor. }
  split; [exact laptop_read_only|]. split; [exact Hno|].
  exact (failure_before_rendering_changes_nothing quiet secured_from_file
           (laptop (Some [])) laptop_read_only Hno).
Defined.

Lemma renderer_has_the_last_word_witness :
  FileExists (target from_file) (laptop None) = false ∧
  (run quiet from_file (laptop None)).1 = Ok tt.
Proof.
  assert (FileExists (target from_file) (laptop None) = false) as Hex
    by (vm_compute; reflexivity).
  split; [exact Hex|].
  exact (f_equal fst
           (renderer_has_the_last_word quiet from_file (laptop None) plain
              {| world := laptop None;
                 calls := [succeeded (CallFileExists "out");
                           succeeded (CallFromFile "bundles/plain.yaml")] |}
              {| world := laptop None;
                 calls := [succeeded (CallFileExists "out");
                           succeeded (CallFromFile "bundles/plain.yaml")] |}
              Hex eq_refl eq_refl)).
Defined.

End LaptopRuns.
